(** * Restaurant review scraper: extraction, crawl, checkpoint and clean-up

    A shallow embedding of [config.py], [utils.py] ([DataProcessor],
    [CheckpointManager]) and [enhanced_scraper.py] ([ZomatoReviewScraper]),
    with the properties of the pipeline stated and proved over it.

    Conventions of the embedding.
    - A Python [str] is a list of characters; a character is one of the first
      256 code points, classified as Python classifies it ([isspace],
      [isalpha]).
    - Python exceptions are values of [exn]; code that may raise returns a
      [result]; [try]/[except] is [try_except].
    - The network, the clock and the checkpoint file are explicit: the web is
      a function from the requested URL to what [session.get] does, the clock
      gives the text of the n-th [datetime.now().isoformat()], and the state
      that is threaded through the scraper records the requests made, the
      clock readings taken and the files written.
    - The review dicts that [deduplicate_reviews] updates in place live in a
      store of objects and are passed around by reference. *)

From Stdlib Require Import ZArith Lia Ascii String.
From stdpp Require Import base option list functions strings gmap pretty.

Local Open Scope list_scope.

(** ** Python strings *)

Module PyStr.

Abbreviation pystr := (list ascii).

(** The string literal ["..."] as a Python [str]. *)
Definition str (s : string) : pystr := String.list_ascii_of_string s.

Definition code (c : ascii) : N := N_of_ascii c.

Definition between (lo hi n : N) : bool := N.leb lo n && N.leb n hi.

(** [str.isspace] on one character: TAB..CR, FS..US, SPACE, NEL, NBSP. *)
Definition isspace (c : ascii) : bool :=
  let n := code c in
  between 9 13 n || between 28 32 n || N.eqb n 133 || N.eqb n 160.

(** [str.isalpha] on one character: the letters of Latin-1. *)
Definition isalpha (c : ascii) : bool :=
  let n := code c in
  between 65 90 n || between 97 122 n
  || N.eqb n 170 || N.eqb n 181 || N.eqb n 186
  || between 192 214 n || between 216 246 n || between 248 255 n.

(** [s.lstrip()], [s.rstrip()], [s.strip()] *)
Fixpoint lstrip (s : pystr) : pystr :=
  match s with
  | [] => []
  | c :: s' => if isspace c then lstrip s' else s
  end.

Fixpoint rstrip (s : pystr) : pystr :=
  match s with
  | [] => []
  | c :: s' =>
      match rstrip s' with
      | [] => if isspace c then [] else [c]
      | r => c :: r
      end
  end.

Definition strip (s : pystr) : pystr := rstrip (lstrip s).

Definition starts_with_space (s : pystr) : bool :=
  match s with
  | c :: _ => isspace c
  | [] => true
  end.

(** [s.split()]: the maximal runs of non-whitespace characters. *)
Fixpoint split (s : pystr) : list pystr :=
  match s with
  | [] => []
  | c :: s' =>
      if isspace c then split s'
      else match split s' with
           | t :: ts =>
               if starts_with_space s' then [c] :: t :: ts else (c :: t) :: ts
           | [] => [[c]]
           end
  end.

(** [sep.join(parts)] *)
Fixpoint join (sep : pystr) (parts : list pystr) : pystr :=
  match parts with
  | [] => []
  | [t] => t
  | t :: ts => t ++ sep ++ join sep ts
  end.

(** [s.startswith(p)] *)
Fixpoint startswith (p s : pystr) : bool :=
  match p, s with
  | [], _ => true
  | a :: p', b :: s' => bool_decide (a = b) && startswith p' s'
  | _ :: _, [] => false
  end.

(** [s.endswith(p)] *)
Definition endswith (p s : pystr) : bool := startswith (rev p) (rev s).

(** [p in s] for two strings: [p] occurs in [s]. *)
Fixpoint contains (p s : pystr) : bool :=
  startswith p s ||
  match s with
  | [] => false
  | _ :: s' => contains p s'
  end.

(** [s.replace(old, new)]: the occurrences of [old] are found from the left
    and do not overlap.  [skip] counts the characters of the occurrence just
    replaced that are still to be passed over. *)
Fixpoint replace_from (old new : pystr) (skip : nat) (s : pystr) : pystr :=
  match s with
  | [] => []
  | c :: s' =>
      match skip with
      | S k => replace_from old new k s'
      | O =>
          if startswith old s
          then new ++ replace_from old new (length old - 1) s'
          else c :: replace_from old new 0 s'
      end
  end.

Definition replace (old new s : pystr) : pystr :=
  match old with
  | [] => new ++ concat (map (fun c => c :: new) s)
  | _ :: _ => replace_from old new 0 s
  end.

(** [str(n)] for a natural number. *)
Definition of_nat (n : nat) : pystr := str (pretty n).

End PyStr.

Import PyStr.

(** Characters that cannot be written inside a literal. *)
Definition TAB : ascii := ascii_of_nat 9.
Definition LF : ascii := ascii_of_nat 10.
Definition CR : ascii := ascii_of_nat 13.
Definition DQUOTE : ascii := ascii_of_nat 34.

(** ** config.py *)

Module Config.

Definition INPUT_FILE : pystr := str "zomato.csv".
Definition OUTPUT_FILE : pystr := str "zomato_reviews_from_urls.csv".
Definition CHECKPOINT_FILE : pystr := str "scraping_checkpoint.json".

Definition MAX_PAGES : nat := 5.
Definition CHUNK_SIZE : nat := 10.

Definition REVIEW_SELECTORS : list pystr :=
  [ str "p.sc-1hez2tp-0.sc-hfLElm.hreYiP";
    str "p.sc-1hez2tp-0.hreYiP";
    str "p.hreYiP";
    str "div.sc-dgAbBl.ceFzZe p";
    str "section.sc-jOnSTu.cfrSOJ p";
    str "div[data-testid=" ++ [DQUOTE] ++ str "review-text" ++ [DQUOTE] ++ str "]";
    str "div.reviews-text";
    str "p.review-text";
    str "div.review-content p";
    str "[class*=" ++ [DQUOTE] ++ str "review" ++ [DQUOTE] ++ str "] p";
    str "div[class*=" ++ [DQUOTE] ++ str "review-text" ++ [DQUOTE] ++ str "]";
    str "p[class*=" ++ [DQUOTE] ++ str "review" ++ [DQUOTE] ++ str "]" ].

Definition MIN_REVIEW_LENGTH : nat := 20.

End Config.

(** ** Exceptions, results and the state monad of the scraper *)

(** The exception classes the code meets.  [Timeout] is a subclass of
    [RequestException] and [FileNotFoundError] of [OSError]; every class here
    is a subclass of [Exception]. *)
Inductive exn :=
  | Timeout
  | RequestException
  | JSONDecodeError
  | AttributeError
  | TypeError
  | KeyError
  | FileNotFoundError
  | OSError
  | OtherException.

Definition is_Timeout (e : exn) : bool :=
  match e with Timeout => true | _ => false end.

Definition is_RequestException (e : exn) : bool :=
  match e with Timeout | RequestException => true | _ => false end.

Inductive result (A : Type) :=
  | Ok (a : A)
  | Raise (e : exn).
Arguments Ok {A} a.
Arguments Raise {A} e.

(** A computation over a state [S] that returns an [A] or raises; the state
    reached is kept in both cases. *)
Definition M (S A : Type) : Type := S → result A * S.

Definition ret {S A} (a : A) : M S A := fun s => (Ok a, s).

Definition raise {S A} (e : exn) : M S A := fun s => (Raise e, s).

Definition bind {S A B} (m : M S A) (k : A → M S B) : M S B :=
  fun s =>
    match m s with
    | (Ok a, s') => k a s'
    | (Raise e, s') => (Raise e, s')
    end.

(** [try: m  except Exception as e: handler e] *)
Definition try_except {S A} (m : M S A) (handler : exn → M S A) : M S A :=
  fun s =>
    match m s with
    | (Ok a, s') => (Ok a, s')
    | (Raise e, s') => handler e s'
    end.

Definition get {S} : M S S := fun s => (Ok s, s).
Definition modify {S} (f : S → S) : M S unit := fun s => (Ok tt, f s).

(** A computation on the outer state run inside a frame that also holds the
    local variable of type [L]. *)
Definition lift {W L A} (m : M W A) : M (W * L) A :=
  fun s => let '(r, w') := m s.1 in (r, (w', s.2)).

Definition of_result {S A} (r : result A) : M S A := fun s => (r, s).

(** Run [m] with a fresh local variable set to [init]; the value of the
    local when [m] ends is returned with the result of [m]. *)
Definition with_local {W L A} (init : L) (m : M (W * L) A) : M W (A * L) :=
  fun w =>
    match m (w, init) with
    | (Ok a, (w', l)) => (Ok (a, l), w')
    | (Raise e, (w', _)) => (Raise e, w')
    end.

(** Assignment to the local variable of the frame. *)
Definition update_local {W L} (f : L → L) : M (W * L) unit :=
  modify (fun s => (s.1, f s.2)).

Declare Scope py_scope.
Delimit Scope py_scope with py.
Notation "x <- c1 ;; c2" := (bind c1 (fun x => c2))
  (at level 100, c1 at next level, right associativity) : py_scope.
Notation "c1 ;; c2" := (bind c1 (fun _ => c2))
  (at level 100, right associativity) : py_scope.
Local Open Scope py_scope.

(** What the body of a [for] loop asks for when it ends. *)
Inductive ctl := Continue | Break.

(** [for x in xs: body x], where the body may [break]. *)
Fixpoint for_each {S X} (body : X → M S ctl) (xs : list X) : M S unit :=
  match xs with
  | [] => ret tt
  | x :: xs' =>
      c <- body x ;;
      match c with
      | Break => ret tt
      | Continue => for_each body xs'
      end
  end.

(** ** Values read from and written to JSON files *)

Inductive json :=
  | JNull
  | JBool (b : bool)
  | JInt (z : Z)
  | JStr (s : pystr)
  | JList (l : list json)
  | JObj (kv : list (pystr * json)).

(** [d.get(key, default)] on a decoded object. *)
Fixpoint obj_get (kv : list (pystr * json)) (key : pystr) (default : json) : json :=
  match kv with
  | [] => default
  | (k, v) :: kv' => if bool_decide (k = key) then v else obj_get kv' key default
  end.

(** [len(v)]: defined on strings, lists and dicts. *)
Definition py_len (v : json) : result nat :=
  match v with
  | JStr s => Ok (length s)
  | JList l => Ok (length l)
  | JObj kv => Ok (length kv)
  | JNull | JBool _ | JInt _ => Raise TypeError
  end.

(** Truth value of [v] in a condition. *)
Definition truthy (v : json) : bool :=
  match v with
  | JNull => false
  | JBool b => b
  | JInt z => negb (Z.eqb z 0)
  | JStr s => negb (bool_decide (s = []))
  | JList l => negb (bool_decide (length l = 0))
  | JObj kv => negb (bool_decide (length kv = 0))
  end.

(** [x == v] for a string [x]. *)
Definition str_eq (x : pystr) (v : json) : bool :=
  match v with
  | JStr s => bool_decide (s = x)
  | _ => false
  end.

(** [x in v] for a string [x]: membership in a list, substring of a string,
    key of a dict. *)
Definition py_in (x : pystr) (v : json) : result bool :=
  match v with
  | JList l => Ok (existsb (str_eq x) l)
  | JStr s => Ok (contains x s)
  | JObj kv => Ok (existsb (fun p => bool_decide (p.1 = x)) kv)
  | JNull | JBool _ | JInt _ => Raise TypeError
  end.

(** [v.append(x)]: only a list has the method. *)
Definition py_append (v : json) (x : pystr) : result json :=
  match v with
  | JList l => Ok (JList (l ++ [JStr x]))
  | _ => Raise AttributeError
  end.

(** [v[-1]] *)
Definition py_last (v : json) : result json :=
  match v with
  | JList l => match last l with Some x => Ok x | None => Raise OtherException end
  | JStr s => match last s with Some c => Ok (JStr [c]) | None => Raise OtherException end
  | JObj _ => Raise KeyError
  | JNull | JBool _ | JInt _ => Raise TypeError
  end.

(** ** Review records and the outside world *)

(** The dict of one review.  [deduplicate_reviews] and [validate_reviews] read
    the text with [review.get('review', '')], so the key may be absent. *)
Record review_dict := mk_review {
  restaurant_url : pystr;
  page : nat;
  review : option pystr;
  scraped_at : pystr
}.

(** [d['review'] = text] *)
Definition set_review (d : review_dict) (text : pystr) : review_dict :=
  {| restaurant_url := restaurant_url d; page := page d;
     review := Some text; scraped_at := scraped_at d |}.

(** What a file holds: a JSON document (given by the value [json.load]
    decodes it to, which is the value [json.dump] wrote), the rows of a CSV
    export, or bytes that are not a JSON document. *)
Inductive file_content :=
  | JsonDoc (v : json)
  | CsvRows (rows : list review_dict)
  | Garbled.

Record world := mk_world {
  requests : list pystr;        (* URLs given to session.get, oldest first *)
  selects : list pystr;         (* selectors given to soup.select, oldest first *)
  sleeps : nat;                 (* calls of time.sleep *)
  ticks : nat;                  (* readings of datetime.now() *)
  files : gmap pystr file_content
}.

Definition log_request (u : pystr) (w : world) : world :=
  mk_world (requests w ++ [u]) (selects w) (sleeps w) (ticks w) (files w).
Definition log_select (sel : pystr) (w : world) : world :=
  mk_world (requests w) (selects w ++ [sel]) (sleeps w) (ticks w) (files w).
Definition add_sleep (w : world) : world :=
  mk_world (requests w) (selects w) (S (sleeps w)) (ticks w) (files w).
Definition add_tick (w : world) : world :=
  mk_world (requests w) (selects w) (sleeps w) (S (ticks w)) (files w).
Definition set_files (fs : gmap pystr file_content) (w : world) : world :=
  mk_world (requests w) (selects w) (sleeps w) (ticks w) fs.

(** An element of a parsed page, as the strings it contains in document
    order. *)
Abbreviation tag := (list pystr) (only parsing).

(** [block.get_text(strip=True)]: the strings of the element, each stripped,
    joined with nothing between them. *)
Definition get_text_strip (block : tag) : pystr := concat (map strip block).

(** A parsed page, as what [soup.select(selector)] does on it. *)
Definition BeautifulSoup := pystr → result (list tag).

(** The body of a response, as what [BeautifulSoup(text, 'html.parser')]
    makes of it. *)
Record response := mk_response {
  status_code : Z;
  parsed : result BeautifulSoup
}.

(** ** utils.py: DataProcessor *)

Module DataProcessor.

Definition patterns_to_remove : list pystr :=
  [ str "RATED" ++ [LF]; str "Rated "; [LF]; [CR]; [TAB] ].

(** [clean_review_text(text)] *)
Definition clean_review_text (text : pystr) : pystr :=
  if bool_decide (text = []) then []
  else
    let text := join (str " ") (split text) in
    let text :=
      fold_left (fun text pattern => replace pattern (str " ") text)
                patterns_to_remove text in
    let text := join (str " ") (split text) in
    strip text.

(** Review dicts are objects: a list of reviews is a list of references into
    a store, and an assignment to a key changes the object for every holder
    of a reference to it. *)
Abbreviation ref := nat (only parsing).
Abbreviation store := (ref → review_dict).

(** [review.get('review', '').strip()] *)
Definition review_text_of (d : review_dict) : pystr :=
  strip (default [] (review d)).

(** The loop of [deduplicate_reviews]: [seen] is [seen_reviews], [unique] is
    [unique_reviews]. *)
Fixpoint dedup_loop (reviews : list ref) (h : store) (seen : gset pystr)
    (unique : list ref) : store * list ref :=
  match reviews with
  | [] => (h, unique)
  | r :: rest =>
      let review_text := review_text_of (h r) in
      if negb (bool_decide (review_text = [])) && bool_decide (review_text ∉ seen)
      then dedup_loop rest
             (<[r := set_review (h r) (clean_review_text review_text)]> h)
             ({[review_text]} ∪ seen)
             (unique ++ [r])
      else dedup_loop rest h seen unique
  end.

(** [deduplicate_reviews(reviews)]: the store after the call and the list
    returned. *)
Definition deduplicate_reviews (h : store) (reviews : list ref) : store * list ref :=
  dedup_loop reviews h ∅ [].

(** One pass of the loop body of [validate_reviews]: [true] when the review
    reaches [valid_reviews.append]. *)
Definition passes_validation (min_length : Z) (d : review_dict) : bool :=
  let review_text := review_text_of d in
  if (Z.of_nat (length review_text) <? min_length)%Z then false
  else if bool_decide
            (replace [TAB] [] (replace [LF] [] (replace (str " ") [] review_text)) = [])
  then false
  else if negb (existsb isalpha review_text) then false
  else true.

(** [validate_reviews(reviews, min_length)]: nothing is assigned, the store
    is unchanged. *)
Fixpoint validate_reviews (h : store) (reviews : list ref) (min_length : Z)
    : list ref :=
  match reviews with
  | [] => []
  | r :: rest =>
      if passes_validation min_length (h r)
      then r :: validate_reviews h rest min_length
      else validate_reviews h rest min_length
  end.

End DataProcessor.

(** ** utils.py: CheckpointManager *)

Module CheckpointManager.

Section Clock.

(** [clock n] is the text of the n-th [datetime.now().isoformat()]. *)
Variable clock : nat → pystr.

Definition datetime_now_isoformat : M world pystr :=
  w <- get ;; modify add_tick ;; ret (clock (ticks w)).

(** [json.dump(v, open(path, 'w'))] *)
Definition json_dump (path : pystr) (v : json) : M world unit :=
  modify (fun w => set_files (<[path := JsonDoc v]> (files w)) w).

(** [json.load(open(path, 'r'))] for a path that exists. *)
Definition json_load (path : pystr) : M world json :=
  w <- get ;;
  match files w !! path with
  | Some (JsonDoc v) => ret v
  | _ => raise JSONDecodeError
  end.

Definition os_path_exists (path : pystr) : M world bool :=
  w <- get ;; ret (bool_decide (is_Some (files w !! path))).

(** [removable path] tells whether the operating system lets the entry at
    [path] be removed: it does not for a directory or for an entry without
    the permission. *)
Variable removable : pystr → bool.


(** [save_checkpoint(self, processed_urls, all_reviews)], with
    [checkpoint_file] for [self.checkpoint_file]. *)
Definition save_checkpoint (checkpoint_file : pystr) (processed_urls : json)
    (all_reviews : list review_dict) : M world unit :=
  timestamp <- datetime_now_isoformat ;;
  last_processed <-
    (if truthy processed_urls then of_result (py_last processed_urls)
     else ret JNull) ;;
  let checkpoint :=
    JObj [ (str "processed_urls", processed_urls);
           (str "total_reviews", JInt (Z.of_nat (length all_reviews)));
           (str "timestamp", JStr timestamp);
           (str "last_processed", last_processed) ] in
  json_dump checkpoint_file checkpoint ;;
  _ <- of_result (py_len processed_urls) ;;
  ret tt.

(** [checkpoint.get('processed_urls', [])]: only a dict has [get]. *)
Definition get_processed_urls (checkpoint : json) : result json :=
  match checkpoint with
  | JObj kv => Ok (obj_get kv (str "processed_urls") (JList []))
  | _ => Raise AttributeError
  end.

(** [load_checkpoint(self)] *)
Definition load_checkpoint (checkpoint_file : pystr) : M world json :=
  found <- os_path_exists checkpoint_file ;;
  if found : bool then
    try_except
      (checkpoint <- json_load checkpoint_file ;;
       processed_urls <- of_result (get_processed_urls checkpoint) ;;
       _ <- of_result (py_len processed_urls) ;;
       ret processed_urls)
      (fun e => ret (JList []))
  else ret (JList []).


End Clock.

End CheckpointManager.

(** ** enhanced_scraper.py: ZomatoReviewScraper *)

Module ZomatoReviewScraper.

Import Config.

Section World.

(** [web url] is what [self.session.get(url, timeout=TIMEOUT)] does: it
    returns a response or raises (after the retries of the session). *)
Variable web : pystr → result response.

(** [clock n] is the text of the n-th [datetime.now().isoformat()]. *)
Variable clock : nat → pystr.

(** [time.sleep(random.uniform( *DELAY_RANGE))] *)
Definition time_sleep : M world unit := modify add_sleep.

Definition session_get (url : pystr) : M world response :=
  modify (log_request url) ;; of_result (web url).

Definition soup_select (soup : BeautifulSoup) (selector : pystr)
    : M world (list tag) :=
  modify (log_select selector) ;; of_result (soup selector).

(** [_get_review_url(self, restaurant_url)] *)
Definition _get_review_url (restaurant_url : pystr) : pystr :=
  let restaurant_url :=
    if endswith (str "/") restaurant_url then removelast restaurant_url
    else restaurant_url in
  restaurant_url ++ str "/reviews".

(** The body of [for block in review_blocks] in [_extract_reviews]. *)
Definition keep_block (min_length : nat) (reviews : list pystr) (block : tag)
    : list pystr :=
  let text := get_text_strip block in
  if negb (bool_decide (text = [])) && (min_length <? length text)
  then reviews ++ [text]
  else reviews.

(** The body of [for selector in REVIEW_SELECTORS]; the local of the frame
    is [reviews]. *)
Definition try_selector (soup : BeautifulSoup) (min_length : nat)
    (selector : pystr) : M (world * list pystr) ctl :=
  try_except
    (review_blocks <- lift (soup_select soup selector) ;;
     if negb (bool_decide (review_blocks = [])) then
       update_local (fun reviews => fold_left (keep_block min_length) review_blocks reviews) ;;
       ret Break
     else ret Continue)
    (fun e => ret Continue).

(** [_extract_reviews] for a given selector list and minimum length. *)
Definition extract_with (selectors : list pystr) (min_length : nat)
    (soup : BeautifulSoup) : M world (list pystr) :=
  r <- with_local [] (for_each (try_selector soup min_length) selectors) ;;
  ret r.2.

(** [_extract_reviews(self, soup)] *)
Definition _extract_reviews (soup : BeautifulSoup) : M world (list pystr) :=
  extract_with REVIEW_SELECTORS MIN_REVIEW_LENGTH soup.

(** The body of [for review_text in page_reviews]; the local of the frame is
    [restaurant_reviews]. *)
Definition append_review (restaurant_url : pystr) (page : nat)
    (review_text : pystr) : M (world * list review_dict) ctl :=
  now <- lift (CheckpointManager.datetime_now_isoformat clock) ;;
  update_local (fun restaurant_reviews =>
    restaurant_reviews ++ [mk_review restaurant_url page (Some review_text) now]) ;;
  ret Continue.

(** The body of [for page in range(1, MAX_PAGES + 1)]. *)
Definition scrape_page (restaurant_url review_url : pystr) (page : nat)
    : M (world * list review_dict) ctl :=
  let full_url := review_url ++ str "?page=" ++ of_nat page in
  try_except
    (lift time_sleep ;;
     response <- lift (session_get full_url) ;;
     if negb (Z.eqb (status_code response) 200) then ret Break
     else
       soup <- of_result (parsed response) ;;
       page_reviews <- lift (_extract_reviews soup) ;;
       if bool_decide (page_reviews = []) then ret Break
       else
         for_each (append_review restaurant_url page) page_reviews ;;
         ret Continue)
    (fun e =>
       if is_Timeout e then ret Break
       else if is_RequestException e then ret Break
       else ret Break).

(** [_scrape_restaurant_reviews(self, restaurant_url)] *)
Definition _scrape_restaurant_reviews (restaurant_url : pystr)
    : M world (list review_dict) :=
  let review_url := _get_review_url restaurant_url in
  r <- with_local []
         (try_except
            (for_each (scrape_page restaurant_url review_url) (seq 1 MAX_PAGES))
            (fun e => ret tt)) ;;
  ret r.2.

(** [temp_df.to_csv(temp_file, index=False)] *)
Definition to_csv (path : pystr) (rows : list review_dict) : M world unit :=
  modify (fun w => set_files (<[path := CsvRows rows]> (files w)) w).

Definition temp_file : pystr := str "temp_" ++ OUTPUT_FILE.

(** The body of [for i, res_url in enumerate(urls)] in [scrape_all_reviews],
    from the values of [all_reviews] and [processed_urls] before it to their
    values after it. *)
Definition process_url (i : nat) (res_url : pystr)
    (locals : list review_dict * json) : M world (list review_dict * json) :=
  let '(all_reviews, processed_urls) := locals in
  done <- of_result (py_in res_url processed_urls) ;;
  if done : bool then ret (all_reviews, processed_urls)
  else
    restaurant_reviews <- _scrape_restaurant_reviews res_url ;;
    let all_reviews := all_reviews ++ restaurant_reviews in
    processed_urls <- of_result (py_append processed_urls res_url) ;;
    if ((i + 1) mod CHUNK_SIZE =? 0)%nat then
      CheckpointManager.save_checkpoint clock CHECKPOINT_FILE processed_urls all_reviews ;;
      (if negb (bool_decide (all_reviews = [])) then to_csv temp_file all_reviews
       else ret tt) ;;
      ret (all_reviews, processed_urls)
    else ret (all_reviews, processed_urls).

(** [enumerate(xs)] from index [i]. *)
Fixpoint enumerate_from {X} (i : nat) (xs : list X) : list (nat * X) :=
  match xs with
  | [] => []
  | x :: xs' => (i, x) :: enumerate_from (S i) xs'
  end.

(** The [for] loop of [scrape_all_reviews] over the pairs still to come. *)
Fixpoint scrape_loop (items : list (nat * pystr))
    (locals : list review_dict * json) : M world (list review_dict * json) :=
  match items with
  | [] => ret locals
  | (i, res_url) :: rest =>
      locals' <- process_url i res_url locals ;;
      scrape_loop rest locals'
  end.

(** [scrape_all_reviews(self, urls)] *)
Definition scrape_all_reviews (urls : list pystr) : M world (list review_dict) :=
  processed_urls <- CheckpointManager.load_checkpoint CHECKPOINT_FILE ;;
  locals <- scrape_loop (enumerate_from 0 urls) ([], processed_urls) ;;
  CheckpointManager.save_checkpoint clock CHECKPOINT_FILE locals.2 locals.1 ;;
  ret locals.1.

End World.

End ZomatoReviewScraper.

(** ** Vocabulary of the statements *)

Import DataProcessor ZomatoReviewScraper Config.

(** [s] ends in a character that is not whitespace. *)
Definition ends_nonspace (s : pystr) : Prop :=
  ∃ s0 c, s = s0 ++ [c] ∧ isspace c = false.

(** [s] holds a character that is not whitespace. *)
Definition has_text (s : pystr) : Prop :=
  ∃ c, c ∈ s ∧ isspace c = false.

(** The texts that [_extract_reviews] keeps of the matched [blocks]. *)
Definition kept_texts (min_length : nat) (blocks : list tag) : list pystr :=
  filter (λ text, text ≠ [] ∧ min_length < length text)
         (map get_text_strip blocks).

(** The selectors evaluated on [soup] up to and with the first one that
    matches an element, and the elements it matches (none when no selector
    matches). *)
Fixpoint first_match (soup : BeautifulSoup) (selectors : list pystr)
    : list pystr * list tag :=
  match selectors with
  | [] => ([], [])
  | selector :: rest =>
      match soup selector with
      | Ok (block :: blocks) => ([selector], block :: blocks)
      | _ => (selector :: (first_match soup rest).1, (first_match soup rest).2)
      end
  end.

(** The world after [soup.select] was called with each of [sels]. *)
Definition log_selects (sels : list pystr) (w : world) : world :=
  mk_world (requests w) (selects w ++ sels) (sleeps w) (ticks w) (files w).

(** A selector that matches nothing on [soup], or that [soup.select]
    rejects. *)
Definition no_match (soup : BeautifulSoup) (selector : pystr) : Prop :=
  soup selector = Ok [] ∨ ∃ e, soup selector = Raise e.

(** The texts [_extract_reviews] returns for [soup]. *)
Definition extracted (soup : BeautifulSoup) : list pystr :=
  kept_texts MIN_REVIEW_LENGTH (first_match soup REVIEW_SELECTORS).2.

(** The URL requested for page [page] of [restaurant_url]. *)
Definition page_url (restaurant_url : pystr) (page : nat) : pystr :=
  _get_review_url restaurant_url ++ str "?page=" ++ of_nat page.

(** The review texts that the page at [full_url] gives: those extracted from
    it when it is fetched with status 200 and parsed, none otherwise. *)
Definition page_reviews_of (web : pystr → result response) (full_url : pystr)
    : list pystr :=
  match web full_url with
  | Ok resp =>
      if Z.eqb (status_code resp) 200 then
        match parsed resp with
        | Ok soup => extracted soup
        | Raise _ => []
        end
      else []
  | Raise _ => []
  end.

(** The page at [full_url] is fetched with status 200, parses to [soup]. *)
Definition fetched (web : pystr → result response) (full_url : pystr)
    (soup : BeautifulSoup) : Prop :=
  ∃ resp, web full_url = Ok resp ∧ status_code resp = 200%Z
          ∧ parsed resp = Ok soup.

(** Something goes wrong with the page at [full_url]: the request raises,
    the status is not 200, or the body does not parse. *)
Definition page_fails (web : pystr → result response) (full_url : pystr)
    : Prop :=
  (∃ e, web full_url = Raise e) ∨
  (∃ resp, web full_url = Ok resp ∧
           (status_code resp ≠ 200%Z ∨ ∃ e, parsed resp = Raise e)).

(** The records of [texts] found on page [page], the first one stamped with
    the [t0]-th reading of the clock. *)
Fixpoint stamp (clock : nat → pystr) (restaurant_url : pystr) (page : nat)
    (t0 : nat) (texts : list pystr) : list review_dict :=
  match texts with
  | [] => []
  | text :: rest =>
      mk_review restaurant_url page (Some text) (clock t0)
      :: stamp clock restaurant_url page (S t0) rest
  end.

(** The records of the pages [pages], one page after the other. *)
Fixpoint pages_records (web : pystr → result response) (clock : nat → pystr)
    (restaurant_url : pystr) (pages : list nat) (t0 : nat) : list review_dict :=
  match pages with
  | [] => []
  | page :: rest =>
      let texts := page_reviews_of web (page_url restaurant_url page) in
      stamp clock restaurant_url page t0 texts
      ++ pages_records web clock restaurant_url rest (t0 + length texts)
  end.

(** A record without its time stamp. *)
Definition untimed (d : review_dict) : pystr * nat * option pystr :=
  (restaurant_url d, page d, review d).

(** The untimed records of [texts] found on page [page]. *)
Definition tagged (restaurant_url : pystr) (page : nat) (texts : list pystr)
    : list (pystr * nat * option pystr) :=
  map (λ text, (restaurant_url, page, Some text)) texts.

(** The world after [n] more readings of the clock. *)
Definition add_ticks (n : nat) (w : world) : world :=
  mk_world (requests w) (selects w) (sleeps w) (ticks w + n) (files w).

(** *** Sample inputs *)

Definition empty_world : world := mk_world [] [] 0 0 ∅.

Definition sample_clock (n : nat) : pystr := str "2024-01-01T00:00:" ++ of_nat n.

(** A page on which the third selector and a later, broader one both match. *)
Definition review_page : BeautifulSoup := λ selector,
  if bool_decide (selector = str "p.hreYiP") then
    Ok [ [str "  The paneer tikka was superb  "]; [str " ok "] ]
  else if bool_decide (selector = str "p.review-text") then
    Ok [ [str "A broad match that is never looked at"] ]
  else Ok [].

(** A page on which no selector matches. *)
Definition empty_page : BeautifulSoup := λ _, Ok [].

Definition sample_url : pystr := str "https://site.example/city/place-name/".

(** A site with one page of reviews, an empty second page, and time-outs
    everywhere else. *)
Definition sample_web : pystr → result response := λ url,
  if bool_decide (url = str "https://site.example/city/place-name/reviews?page=1")
  then Ok (mk_response 200 (Ok review_page))
  else if bool_decide (url = str "https://site.example/city/place-name/reviews?page=2")
  then Ok (mk_response 200 (Ok empty_page))
  else Raise Timeout.

Definition sample_soups (p : nat) : BeautifulSoup :=
  match p with 1 => review_page | _ => empty_page end.

(** A checkpoint file from which nothing can be read: there is no file, or it
    does not hold a JSON document, or the document is not an object. *)
Definition unreadable (c : option file_content) : bool :=
  match c with
  | Some (JsonDoc (JObj _)) => false
  | _ => true
  end.

(** [p'] is [p] with identifiers added at the end (or [p] itself): nothing
    is removed and the order of what was there is kept. *)
Definition grows (p p' : json) : Prop :=
  p' = p ∨ ∃ l added, p = JList l ∧ p' = JList (l ++ map JStr added).

(** The value of [processed_urls] after the first [n] turns of the loop of
    [scrape_all_reviews urls], in a run started in [w]; [None] if the run
    has raised by then. *)
Definition processed_after (web : pystr → result response)
    (clock : nat → pystr) (urls : list pystr) (w : world) (n : nat)
    : option json :=
  match
    (processed_urls <- CheckpointManager.load_checkpoint CHECKPOINT_FILE ;;
     scrape_loop web clock (take n (enumerate_from 0 urls)) ([], processed_urls)) w
  with
  | (Ok locals, _) => Some locals.2
  | (Raise _, _) => None
  end.

(** After the run over [urls] started in [w], the next run finds [u] in the
    checkpoint it loads, and so skips it. *)
Definition skipped_by_next_run (web : pystr → result response)
    (clock : nat → pystr) (urls : list pystr) (w : world) (u : pystr) : Prop :=
  ∃ r w' p,
    scrape_all_reviews web clock urls w = (r, w')
    ∧ CheckpointManager.load_checkpoint CHECKPOINT_FILE w' = (Ok p, w')
    ∧ py_in u p = Ok true.




(** A page whose only block has exactly [MIN_REVIEW_LENGTH] characters once
    trimmed. *)
Definition boundary_page : BeautifulSoup := λ selector,
  if bool_decide (selector = str "p.sc-1hez2tp-0.sc-hfLElm.hreYiP")
  then Ok [ [str "  exactly twenty chars "] ]
  else Ok [].

(** The texts that the reviews of [out] hold in store [h], trimmed. *)
Definition trimmed_texts (h : store) (out : list ref) : list pystr :=
  map (λ r, review_text_of (h r)) out.

(** The property of the output of [deduplicate_reviews] on the output of
    [validate_reviews] as the specification states it: read in the store
    after the two calls, no two reviews of the output hold the same trimmed
    text, and each holds a trimmed text of at least [min_length] characters
    with a letter in it, not blank. *)
Definition clean_output (h : store) (R : list ref) (min_length : Z) : Prop :=
  let valid := validate_reviews h R min_length in
  let h' := (deduplicate_reviews h valid).1 in
  let unique := (deduplicate_reviews h valid).2 in
  NoDup (trimmed_texts h' unique) ∧
  ∀ r, r ∈ unique →
    (min_length ≤ Z.of_nat (length (review_text_of (h' r))))%Z ∧
    existsb isalpha (review_text_of (h' r)) = true ∧
    has_text (review_text_of (h' r)).

(** Two reviews whose texts differ by one more blank. *)
Definition rated_store : store := λ r,
  match r with
  | 0 => mk_review (str "url1") 1 (Some (str "Rated 12345678901234567890")) []
  | _ => mk_review (str "url1") 1 (Some (str "Rated  12345678901234567890")) []
  end.

(** A review, a blank one and one without text. *)
Definition blank_store : store := λ r,
  match r with
  | 0 => mk_review (str "url1") 1 (Some (str "Great food! Loved it.")) []
  | 1 => mk_review (str "url2") 1 (Some ([TAB] ++ str "  " ++ [LF])) []
  | _ => mk_review (str "url3") 2 None []
  end.

(** The four reviews of [test_data_processor] in [test_scraper.py]; the keys
    [page] and [scraped_at], which those dicts lack, are never read. *)
Definition test_reviews : store := λ r,
  match r with
  | 0 => mk_review (str "test1") 0 (Some (str "Great food! Loved it.")) []
  | 1 => mk_review (str "test2") 0 (Some (str "Bad")) []
  | 2 => mk_review (str "test1") 0
           (Some (str "Amazing experience with excellent service")) []
  | _ => mk_review (str "test1") 0 (Some (str "Great food! Loved it.")) []
  end.

(** A world whose checkpoint file was written with one more key. *)
Definition versioned_world : world :=
  set_files
    {[CHECKPOINT_FILE :=
        JsonDoc (JObj [ (str "version", JInt 2);
                        (str "processed_urls", JList [JStr (str "u")]) ])]}
    empty_world.



(** The identifiers of [urls] that a run appends to a processed list that
    holds [ids]: those that are not in it, each where it first occurs. *)
Fixpoint new_identifiers (ids urls : list pystr) : list pystr :=
  match urls with
  | [] => []
  | u :: rest =>
      if bool_decide (u ∈ ids) then new_identifiers ids rest
      else u :: new_identifiers (ids ++ [u]) rest
  end.

(** A record as the crawler makes them: a page number within the limit and a
    trimmed text of more than [MIN_REVIEW_LENGTH] characters. *)
Definition wellformed (r : review_dict) : Prop :=
  1 ≤ page r ≤ MAX_PAGES
  ∧ ∃ t, review r = Some t ∧ MIN_REVIEW_LENGTH < length t
         ∧ review_text_of r = t.

(** A world in which the checkpoint of an earlier run holds [sample_url]. *)
Definition resumed_world : world :=
  set_files
    {[CHECKPOINT_FILE :=
        JsonDoc (JObj [ (str "processed_urls", JList [JStr sample_url]) ])]}
    empty_world.

(** The record that the crawl of [sample_url] on [sample_web] makes. *)
Definition crawled_review : review_dict :=
  mk_review sample_url 1 (Some (str "The paneer tikka was superb"))
    (sample_clock 0).

(** * Properties *)

(** ** Behaviour on sample inputs *)

Example strip_sample : strip (str "  ab c ") = str "ab c".
Proof. reflexivity. Qed.

Example split_sample :
  split (str "  ab  c  d ") = [str "ab"; str "c"; str "d"].
Proof. reflexivity. Qed.

Example replace_sample :
  replace (str "aa") (str "b") (str "aaaxaa") = str "baxb".
Proof. reflexivity. Qed.

Example clean_review_text_sample :
  clean_review_text (str "Rated  4.0   Lovely  place ") = str "4.0 Lovely place".
Proof. by vm_compute. Qed.

(** The scenario of [test_scraper_initialization], with and without the
    trailing slash. *)
Example review_url_sample :
  _get_review_url (str "https://www.zomato.com/bangalore/restaurant-name")
  = str "https://www.zomato.com/bangalore/restaurant-name/reviews"
  ∧ _get_review_url (str "https://www.zomato.com/bangalore/restaurant-name/")
    = str "https://www.zomato.com/bangalore/restaurant-name/reviews".
Proof. by vm_compute. Qed.

(** ** Strings *)

Section StringFacts.

Implicit Types (s p t : pystr) (c : ascii).

Lemma ends_nonspace_cons c s : ends_nonspace s → ends_nonspace (c :: s).
Proof. intros (s0 & d & -> & Hd). by exists (c :: s0), d. Qed.

Lemma ends_nonspace_app s t : ends_nonspace t → ends_nonspace (s ++ t).
Proof.
  intros (s0 & d & -> & Hd). exists (s ++ s0), d. by rewrite app_assoc.
Qed.

Lemma ends_nonspace_has_text s : ends_nonspace s → has_text s.
Proof.
  intros (s0 & d & -> & Hd). exists d. split; [|done].
  apply elem_of_app. right. apply list_elem_of_singleton. done.
Qed.

Lemma rstrip_nil_or_ends s : rstrip s = [] ∨ ends_nonspace (rstrip s).
Proof.
  induction s as [|c s IH]; simpl; [by left|].
  destruct (rstrip s) as [|d r] eqn:E.
  - destruct (isspace c) eqn:Hc; [by left|].
    right. by exists [], c.
  - right. destruct IH as [?|IH]; [done|]. by apply ends_nonspace_cons.
Qed.

Lemma strip_nonempty_ends s : strip s ≠ [] → ends_nonspace (strip s).
Proof. unfold strip. intros H. by destruct (rstrip_nil_or_ends (lstrip s)). Qed.

Lemma rstrip_ends_id s : ends_nonspace s → rstrip s = s.
Proof.
  intros (s0 & d & -> & Hd).
  induction s0 as [|c s0 IH]; simpl; [by rewrite Hd|].
  rewrite IH. by destruct s0.
Qed.

Lemma lstrip_ends s : ends_nonspace s → ends_nonspace (lstrip s).
Proof.
  intros (s0 & d & -> & Hd).
  induction s0 as [|c s0 IH]; simpl.
  - rewrite Hd. by exists [], d.
  - destruct (isspace c); [done|]. by exists (c :: s0), d.
Qed.

Lemma strip_ends s : ends_nonspace s → ends_nonspace (strip s).
Proof.
  intros H. unfold strip. apply lstrip_ends in H.
  by rewrite (rstrip_ends_id _ H).
Qed.

(** The words of [split] are not empty and hold no whitespace. *)
Lemma split_words s :
  Forall (λ t, t ≠ [] ∧ Forall (λ c, isspace c = false) t) (split s).
Proof.
  induction s as [|c s IH]; simpl; [constructor|].
  destruct (isspace c) eqn:Hc; [done|].
  destruct (split s) as [|t ts]; [by repeat constructor|].
  apply Forall_cons in IH as [[Ht Hall] Hts].
  destruct (starts_with_space s).
  - repeat constructor; done.
  - constructor; [|done]. split; [done|]. by constructor.
Qed.

Lemma split_has_text s : has_text s → split s ≠ [].
Proof.
  intros (d & Hin & Hd).
  induction s as [|c s IH]; [by apply elem_of_nil in Hin|]. simpl.
  destruct (isspace c) eqn:Hc.
  - apply IH. apply elem_of_cons in Hin as [->|Hin]; [congruence|done].
  - destruct (split s); [done|]. by destruct (starts_with_space s).
Qed.

Lemma word_ends t :
  t ≠ [] → Forall (λ c, isspace c = false) t → ends_nonspace t.
Proof.
  intros Hne Hall. destruct (exists_last Hne) as (s0 & d & ->).
  exists s0, d. split; [done|].
  apply Forall_app in Hall as [_ Hd]. by inversion_clear Hd.
Qed.

Lemma join_ends sep (ts : list pystr) :
  ts ≠ [] → Forall ends_nonspace ts → ends_nonspace (join sep ts).
Proof.
  induction ts as [|t ts IH]; [done|]. intros _ Hall.
  apply Forall_cons in Hall as [Ht Hts]. simpl.
  destruct ts as [|t' ts']; [done|].
  apply ends_nonspace_app, ends_nonspace_app, IH; done.
Qed.

Lemma join_split_ends s : has_text s → ends_nonspace (join (str " ") (split s)).
Proof.
  intros H. apply join_ends; [by apply split_has_text|].
  eapply Forall_impl; [apply split_words|].
  intros t [??]. by apply word_ends.
Qed.

Lemma startswith_spec p s : startswith p s = true ↔ ∃ rest, s = p ++ rest.
Proof.
  revert s. induction p as [|a p IH]; intros s; simpl.
  - split; [by exists s|done].
  - destruct s as [|b s]; [split; [done|by intros [? ?]]|].
    rewrite andb_true_iff, bool_decide_eq_true, IH. split.
    + intros [-> [rest ->]]. by exists rest.
    + intros [rest [= -> ->]]. eauto.
Qed.

(** A replacement whose pattern ends in whitespace leaves a final
    non-whitespace character in place. *)
Lemma replace_from_ends o0 w new skip s :
  isspace w = true →
  ends_nonspace s →
  (skip = 0 ∨ ∃ w', s !! (skip - 1) = Some w' ∧ isspace w' = true) →
  ends_nonspace (replace_from (o0 ++ [w]) new skip s).
Proof.
  intros Hw (s0 & d & -> & Hd). revert skip.
  induction s0 as [|x s0 IH]; intros skip Hskip.
  - assert (skip = 0) as ->.
    { destruct Hskip as [?|(w' & Hl & Hw')]; [done|].
      destruct skip as [|[|k]]; simpl in Hl; [done| |done].
      simplify_eq. congruence. }
    simpl. destruct (startswith (o0 ++ [w]) [d]) eqn:Hst.
    + apply startswith_spec in Hst as [rest Hrest].
      destruct o0 as [|? [|? ?]]; simplify_eq/=. congruence.
    + by exists [], d.
  - change ((x :: s0) ++ [d]) with (x :: (s0 ++ [d])) in *.
    cbn [replace_from]. destruct skip as [|k].
    + destruct (startswith (o0 ++ [w]) (x :: s0 ++ [d])) eqn:Hst.
      * apply ends_nonspace_app, IH.
        rewrite length_app. simpl. replace (length o0 + 1 - 1) with (length o0) by lia.
        apply startswith_spec in Hst as [rest Hrest].
        destruct o0 as [|o o0]; [by left|right].
        exists w. split; [|done]. simpl in *. rewrite Nat.sub_0_r.
        injection Hrest as -> ->.
        rewrite <- app_assoc. by rewrite lookup_app_r, Nat.sub_diag.
      * apply ends_nonspace_cons, IH. by left.
    + apply IH. destruct Hskip as [?|(w' & Hl & Hw')]; [done|].
      destruct k as [|k]; [by left|right].
      exists w'. simpl in *. by rewrite Nat.sub_0_r in *.
Qed.

Lemma replace_ends old w new s :
  last old = Some w → isspace w = true →
  ends_nonspace s → ends_nonspace (replace old new s).
Proof.
  intros Hlast Hw Hs.
  destruct (exists_last (l := old)) as (o0 & w' & ->).
  { by destruct old. }
  rewrite last_snoc in Hlast. simplify_eq.
  unfold replace. destruct (o0 ++ [w]) eqn:E; [by destruct o0|].
  rewrite <- E. apply replace_from_ends; auto.
Qed.

(** Replacing a one-character pattern by nothing removes that character. *)
Lemma replace_char_empty c s :
  replace [c] [] s = filter (λ d, d ≠ c) s.
Proof.
  unfold replace. induction s as [|d s IH]; [done|].
  cbn [replace_from startswith length]. rewrite andb_true_r.
  rewrite filter_cons. case_bool_decide; subst.
  - rewrite decide_False by naive_solver. simpl. apply IH.
  - rewrite decide_True by naive_solver. by rewrite IH.
Qed.

End StringFacts.

(** ** DataProcessor *)

Section DataProcessorFacts.

Lemma fold_replace_ends (ps : list pystr) new s :
  Forall (λ p, ∃ w, last p = Some w ∧ isspace w = true) ps →
  ends_nonspace s →
  ends_nonspace (fold_left (λ text pattern, replace pattern new text) ps s).
Proof.
  intros Hps. revert s.
  induction Hps as [|p ps (w & Hl & Hw) _ IH]; intros s Hs; simpl; [done|].
  apply IH. by eapply replace_ends.
Qed.

Lemma patterns_end_in_space :
  Forall (λ p, ∃ w, last p = Some w ∧ isspace w = true) patterns_to_remove.
Proof.
  unfold patterns_to_remove.
  repeat constructor; eexists; (split; [reflexivity|reflexivity]).
Qed.

Lemma clean_review_text_ends t :
  ends_nonspace t → ends_nonspace (clean_review_text t).
Proof.
  intros Ht. unfold clean_review_text.
  rewrite bool_decide_eq_false_2.
  2:{ destruct Ht as (s0 & c & -> & _). by destruct s0. }
  apply strip_ends, join_split_ends, ends_nonspace_has_text.
  apply fold_replace_ends; [apply patterns_end_in_space|].
  by apply join_split_ends, ends_nonspace_has_text.
Qed.

Lemma ends_nonspace_nonempty s : ends_nonspace s → s ≠ [].
Proof. intros (s0 & c & -> & _). by destruct s0. Qed.

Lemma review_text_of_set_review d t :
  review_text_of (set_review d t) = strip t.
Proof. reflexivity. Qed.

Lemma clean_keeps_text d :
  review_text_of d ≠ [] →
  review_text_of (set_review d (clean_review_text (review_text_of d))) ≠ [].
Proof.
  intros Hne. rewrite review_text_of_set_review.
  apply ends_nonspace_nonempty, strip_ends, clean_review_text_ends.
  by apply strip_nonempty_ends.
Qed.

Lemma dedup_loop_unfold r rest (h : store) seen unique :
  dedup_loop (r :: rest) h seen unique =
    if negb (bool_decide (review_text_of (h r) = []))
       && bool_decide (review_text_of (h r) ∉ seen)
    then dedup_loop rest
           (<[r := set_review (h r) (clean_review_text (review_text_of (h r)))]> h)
           ({[review_text_of (h r)]} ∪ seen) (unique ++ [r])
    else dedup_loop rest h seen unique.
Proof. reflexivity. Qed.

Lemma dedup_loop_kept_text reviews : ∀ (h : store) seen unique,
  (∀ r, r ∈ unique → review_text_of (h r) ≠ []) →
  ∀ r, r ∈ (dedup_loop reviews h seen unique).2 →
       review_text_of ((dedup_loop reviews h seen unique).1 r) ≠ [].
Proof.
  induction reviews as [|r0 rest IH]; intros h seen unique Hinv; [done|].
  rewrite dedup_loop_unfold.
  destruct (_ && _) eqn:Hkeep; [|by apply IH].
  apply andb_true_iff in Hkeep as [Hne _].
  apply negb_true_iff, bool_decide_eq_false in Hne.
  apply IH. intros r Hr.
  destruct (decide (r0 = r)) as [->|Hneq].
  - rewrite fn_lookup_insert. by apply clean_keeps_text.
  - rewrite fn_lookup_insert_ne by done. apply Hinv.
    apply elem_of_app in Hr as [?|Hr]; [done|].
    apply list_elem_of_singleton in Hr. congruence.
Qed.

Lemma dedup_loop_blank reviews : ∀ (h : store) seen unique r,
  review_text_of (h r) = [] → r ∉ unique →
  r ∉ (dedup_loop reviews h seen unique).2.
Proof.
  induction reviews as [|r0 rest IH]; intros h seen unique r Hblank Hnot; [done|].
  rewrite dedup_loop_unfold.
  destruct (_ && _) eqn:Hkeep; [|by apply IH].
  apply andb_true_iff in Hkeep as [Hne _].
  apply negb_true_iff, bool_decide_eq_false in Hne.
  assert (Hneq : r0 ≠ r) by congruence.
  apply IH.
  - by rewrite fn_lookup_insert_ne.
  - rewrite elem_of_app, list_elem_of_singleton. by intros [?|?].
Qed.

Lemma dedup_loop_spec reviews : ∀ (h : store) seen unique,
  NoDup reviews →
  ∃ kept,
    (dedup_loop reviews h seen unique).2 = unique ++ kept ∧
    kept `sublist_of` reviews ∧
    NoDup (map (λ r, review_text_of (h r)) kept) ∧
    (∀ r, r ∈ kept → review_text_of (h r) ∉ seen) ∧
    (∀ r, r ∈ kept →
       (dedup_loop reviews h seen unique).1 r
       = set_review (h r) (clean_review_text (review_text_of (h r)))) ∧
    (∀ r, r ∉ reviews → (dedup_loop reviews h seen unique).1 r = h r).
Proof.
  induction reviews as [|r0 rest IH]; intros h seen unique Hnd.
  { exists []. rewrite app_nil_r.
    split_and!; [done|constructor|constructor| | |done];
      intros r Hr; by apply elem_of_nil in Hr. }
  apply NoDup_cons in Hnd as [Hr0 Hnd].
  rewrite dedup_loop_unfold.
  destruct (_ && _) eqn:Hkeep.
  - apply andb_true_iff in Hkeep as [_ Hnew].
    apply bool_decide_eq_true in Hnew.
    set (h1 := <[r0 := _]> h).
    destruct (IH h1 ({[review_text_of (h r0)]} ∪ seen) (unique ++ [r0]) Hnd)
      as (kept & Hout & Hsub & Hkeys & Hseen & Hset & Hrest).
    assert (Hsame : ∀ r, r ∈ kept → h1 r = h r).
    { intros r Hr. unfold h1. apply fn_lookup_insert_ne.
      intros ->. apply Hr0. by apply (sublist_subseteq _ _ Hsub). }
    assert (Hmap : map (λ r, review_text_of (h1 r)) kept
                   = map (λ r, review_text_of (h r)) kept).
    { apply map_ext_in. intros r Hr%list_elem_of_In. by rewrite Hsame. }
    exists (r0 :: kept). split_and!.
    + by rewrite Hout, <- app_assoc.
    + by apply sublist_skip.
    + cbn [map]. apply NoDup_cons. split; [|by rewrite <- Hmap].
      intros Hin%list_elem_of_In%in_map_iff. destruct Hin as (r & Heq & Hr%list_elem_of_In).
      specialize (Hseen r Hr). rewrite Hsame in Hseen by done. set_solver.
    + intros r [->|Hr]%elem_of_cons; [done|].
      specialize (Hseen r Hr). rewrite Hsame in Hseen by done. set_solver.
    + intros r [->|Hr]%elem_of_cons.
      * rewrite Hrest by done. unfold h1. by rewrite fn_lookup_insert.
      * rewrite Hset by done. by rewrite Hsame.
    + intros r Hr. apply not_elem_of_cons in Hr as [Hne Hr].
      rewrite Hrest by done. unfold h1. by rewrite fn_lookup_insert_ne.
  - destruct (IH h seen unique Hnd)
      as (kept & Hout & Hsub & Hkeys & Hseen & Hset & Hrest).
    exists kept. split_and!; try done.
    + by apply sublist_cons.
    + intros r Hr. apply not_elem_of_cons in Hr as [_ Hr]. by apply Hrest.
Qed.

End DataProcessorFacts.

Lemma passes_validation_spec min_length d :
  passes_validation min_length d = true →
  (min_length ≤ Z.of_nat (length (review_text_of d)))%Z ∧
  (∃ c, c ∈ review_text_of d ∧ c ≠ " "%char ∧ c ≠ LF ∧ c ≠ TAB) ∧
  existsb isalpha (review_text_of d) = true.
Proof.
  unfold passes_validation.
  destruct (Z.ltb_spec (Z.of_nat (length (review_text_of d))) min_length); [done|].
  case_bool_decide as Hrep; [done|].
  destruct (existsb isalpha (review_text_of d)); [|done].
  intros _. split_and!; [lia| |done].
  change (str " ") with [" "%char] in Hrep.
  rewrite !replace_char_empty in Hrep.
  destruct (filter _ (filter _ (filter _ _))) as [|c rest] eqn:E; [done|].
  assert (Hc : c ∈ c :: rest) by left.
  rewrite <- E in Hc.
  apply list_elem_of_filter in Hc as [? Hc].
  apply list_elem_of_filter in Hc as [? Hc].
  apply list_elem_of_filter in Hc as [? Hc]. by exists c.
Qed.

Lemma validate_reviews_spec (h : store) R min_length :
  validate_reviews h R min_length `sublist_of` R ∧
  ∀ r, r ∈ validate_reviews h R min_length → passes_validation min_length (h r) = true.
Proof.
  induction R as [|r0 R [IH1 IH2]]; simpl.
  - split; [constructor|]. intros r Hr. by apply elem_of_nil in Hr.
  - destruct (passes_validation min_length (h r0)) eqn:E.
    + split; [by apply sublist_skip|].
      intros r [->|Hr]%elem_of_cons; auto.
    + split; [by apply sublist_cons|done].
Qed.

(** C10. [deduplicate_reviews] drops every review whose text is empty or
    whitespace-only once trimmed, whether or not the text occurs again, and
    every review of its output holds, in the store after the call, a text
    that is not empty once trimmed. *)
Theorem deduplicate_drops_blank (h : store) (reviews : list ref) :
  (∀ r, review_text_of (h r) = [] → r ∉ (deduplicate_reviews h reviews).2) ∧
  (∀ r, r ∈ (deduplicate_reviews h reviews).2 →
        review_text_of ((deduplicate_reviews h reviews).1 r) ≠ []).
Proof.
  unfold deduplicate_reviews. split.
  - intros r Hblank. apply dedup_loop_blank; [done|]. apply not_elem_of_nil.
  - apply dedup_loop_kept_text. intros r Hr. by apply elem_of_nil in Hr.
Qed.

Lemma deduplicate_drops_blank_witness :
  review_text_of (blank_store 1) = []
  ∧ (1 ∉ (deduplicate_reviews blank_store [0; 1; 2]).2)
  ∧ (0 ∈ (deduplicate_reviews blank_store [0; 1; 2]).2)
  ∧ review_text_of ((deduplicate_reviews blank_store [0; 1; 2]).1 0) ≠ [].
Proof.
  split; [reflexivity|]. split.
  - apply (proj1 (deduplicate_drops_blank blank_store [0; 1; 2]) 1). reflexivity.
  - split; [vm_compute; left|].
    apply (proj2 (deduplicate_drops_blank blank_store [0; 1; 2]) 0).
    vm_compute. left.
Defined.

(** C2, amended. For a list [R] of distinct review objects and any
    [min_length], the output of [deduplicate_reviews] on the output of
    [validate_reviews] is a sublist of [R] in which no two reviews had the
    same trimmed text before the call.  Each review of the output had, before
    the call, a trimmed text of at least [min_length] characters that holds a
    letter and a character that is not whitespace; after the call it holds
    [clean_review_text] of that trimmed text, which is not blank. *)
Theorem dedup_validate_output (h : store) (R : list ref) (min_length : Z) :
  NoDup R →
  let valid := validate_reviews h R min_length in
  let h' := (deduplicate_reviews h valid).1 in
  let unique := (deduplicate_reviews h valid).2 in
  unique `sublist_of` R
  ∧ NoDup (trimmed_texts h unique)
  ∧ ∀ r, r ∈ unique →
      (min_length ≤ Z.of_nat (length (review_text_of (h r))))%Z
      ∧ existsb isalpha (review_text_of (h r)) = true
      ∧ has_text (review_text_of (h r))
      ∧ h' r = set_review (h r) (clean_review_text (review_text_of (h r)))
      ∧ has_text (review_text_of (h' r)).
Proof.
  intros Hnd valid h' unique.
  destruct (validate_reviews_spec h R min_length) as [Hsub Hvalid].
  fold valid in Hsub, Hvalid.
  assert (Hnd' : NoDup valid) by (by eapply sublist_NoDup).
  destruct (dedup_loop_spec valid h ∅ [] Hnd')
    as (kept & Hout & Hsub' & Hkeys & _ & Hset & _).
  change (dedup_loop valid h ∅ []) with (deduplicate_reviews h valid) in *.
  fold unique in Hout. fold h' in Hset. simpl in Hout. subst kept.
  split_and!; [by etrans|done|].
  intros r Hr.
  assert (Hr' : r ∈ valid) by (by apply (sublist_subseteq _ _ Hsub')).
  destruct (passes_validation_spec _ _ (Hvalid r Hr'))
    as (Hlen & (c & Hc & Hsp & _) & Halpha).
  assert (Hne : review_text_of (h r) ≠ []).
  { intros Hnil. rewrite Hnil in Hc. by apply elem_of_nil in Hc. }
  split_and!; [done|done| |by apply Hset|].
  - by apply ends_nonspace_has_text, strip_nonempty_ends.
  - rewrite Hset by done.
    by apply ends_nonspace_has_text, strip_nonempty_ends, clean_keeps_text.
Qed.

Lemma dedup_validate_output_witness :
  NoDup [0; 1]
  ∧ (deduplicate_reviews rated_store (validate_reviews rated_store [0; 1] 25)).2
      `sublist_of` [0; 1]
  ∧ NoDup (trimmed_texts rated_store
             (deduplicate_reviews rated_store
                (validate_reviews rated_store [0; 1] 25)).2).
Proof.
  assert (Hnd : NoDup [0; 1]) by (apply (bool_decide_unpack _); vm_compute; exact I).
  split; [exact Hnd|].
  destruct (dedup_validate_output rated_store [0; 1] 25 Hnd) as (Hsub & Hkeys & _).
  by split.
Defined.

(** The two reviews of [rated_store] pass [validate_reviews] with a minimum
    of 25 and differ once trimmed, so both survive; after the clean-up both
    hold the same 20 digits, shorter than the minimum and without a letter. *)
Lemma clean_output_counterexample : ¬ clean_output rated_store [0; 1] 25.
Proof.
  unfold clean_output. intros [Hnd _]. vm_compute in Hnd.
  apply NoDup_cons in Hnd as [Hnot _]. apply Hnot. left.
Qed.

Example rated_store_output :
  map (λ r, review ((deduplicate_reviews rated_store
                       (validate_reviews rated_store [0; 1] 25)).1 r))
      (deduplicate_reviews rated_store (validate_reviews rated_store [0; 1] 25)).2
  = [Some (str "12345678901234567890"); Some (str "12345678901234567890")].
Proof. by vm_compute. Qed.

(** A list that holds the same review object twice: the second visit reads
    the text the first one has just cleaned, so the object is kept twice. *)
Example aliased_review_kept_twice :
  (deduplicate_reviews rated_store [1; 1]).2 = [1; 1].
Proof. by vm_compute. Qed.

(** The scenario of [test_data_processor]: of four reviews, [validate_reviews]
    with a minimum of 10 keeps three, and so does [deduplicate_reviews]. *)
Example test_data_processor :
  validate_reviews test_reviews [0; 1; 2; 3] 10 = [0; 2; 3]
  ∧ (deduplicate_reviews test_reviews [0; 1; 2; 3]).2 = [0; 1; 2].
Proof. by vm_compute. Qed.

(** ** The content extractor *)
Section ExtractFacts.

Lemma keep_block_fold min_length blocks : ∀ reviews,
  fold_left (keep_block min_length) blocks reviews
  = reviews ++ kept_texts min_length blocks.
Proof.
  unfold kept_texts.
  induction blocks as [|b blocks IH]; intros reviews; simpl.
  - by rewrite app_nil_r.
  - rewrite IH. unfold keep_block. rewrite filter_cons.
    destruct (decide _) as [[Hne Hlen]|Hno].
    + rewrite bool_decide_eq_false_2 by done. 
      apply Nat.ltb_lt in Hlen. rewrite Hlen. simpl. by rewrite <- app_assoc.
    + case_bool_decide as Hnil; simpl; [done|].
      destruct (Nat.ltb_spec min_length (length (get_text_strip b))); [|done].
      by destruct Hno.
Qed.

Lemma log_selects_nil w : log_selects [] w = w.
Proof. unfold log_selects. rewrite app_nil_r. by destruct w. Qed.

Lemma log_selects_cons s sels w :
  log_selects sels (log_select s w) = log_selects (s :: sels) w.
Proof. unfold log_selects, log_select. simpl. by rewrite <- app_assoc. Qed.

(** One turn of the selector loop. *)
Lemma try_selector_eq soup min_length selector w reviews :
  try_selector soup min_length selector (w, reviews) =
    match soup selector with
    | Ok (b :: bs) =>
        (Ok Break, (log_select selector w,
                    reviews ++ kept_texts min_length (b :: bs)))
    | _ => (Ok Continue, (log_select selector w, reviews))
    end.
Proof.
  unfold try_selector, try_except, bind, lift, soup_select, bind, modify,
    of_result, update_local, ret. simpl.
  destruct (soup selector) as [[|b bs]|e]; simpl; try done.
  by rewrite <- (keep_block_fold _ (b :: bs)).
Qed.

Lemma selector_loop_eq soup min_length selectors : ∀ w reviews,
  for_each (try_selector soup min_length) selectors (w, reviews) =
    (Ok tt, (log_selects (first_match soup selectors).1 w,
             reviews ++ kept_texts min_length (first_match soup selectors).2)).
Proof.
  induction selectors as [|s rest IH]; intros w reviews.
  - simpl. unfold ret. by rewrite log_selects_nil, app_nil_r.
  - cbn [for_each first_match]. unfold bind at 1. rewrite try_selector_eq.
    destruct (soup s) as [[|b bs]|e]; simpl.
    + rewrite IH. by rewrite log_selects_cons.
    + unfold ret. by rewrite <- (log_selects_cons s []), log_selects_nil.
    + rewrite IH. by rewrite log_selects_cons.
Qed.

Lemma extract_with_eq selectors min_length soup w :
  extract_with selectors min_length soup w =
    (Ok (kept_texts min_length (first_match soup selectors).2),
     log_selects (first_match soup selectors).1 w).
Proof.
  unfold extract_with, bind, with_local. by rewrite selector_loop_eq.
Qed.

Lemma first_match_found soup pre selector post block blocks :
  Forall (no_match soup) pre →
  soup selector = Ok (block :: blocks) →
  first_match soup (pre ++ selector :: post) = (pre ++ [selector], block :: blocks).
Proof.
  intros Hpre Hsel. induction Hpre as [|s pre Hs _ IH]; simpl.
  - by rewrite Hsel.
  - rewrite IH. by destruct Hs as [->|[e ->]].
Qed.

End ExtractFacts.

(** C3. On a selector list in which [selector] is the first to match an
    element of the page, what is returned are the texts kept of the elements
    [selector] matches, and [soup.select] is called with the selectors up to
    [selector] and with none of those after it, whatever they would match. *)
Theorem extract_first_matching_strategy
    (soup : BeautifulSoup) (min_length : nat)
    (pre : list pystr) (selector : pystr) (post : list pystr)
    (block : tag) (blocks : list tag) (w : world) :
  Forall (no_match soup) pre →
  soup selector = Ok (block :: blocks) →
  (extract_with (pre ++ selector :: post) min_length soup w).1
  = Ok (kept_texts min_length (block :: blocks))
  ∧ selects (extract_with (pre ++ selector :: post) min_length soup w).2
    = selects w ++ pre ++ [selector].
Proof.
  intros Hpre Hsel. rewrite extract_with_eq.
  by rewrite (first_match_found _ _ _ _ _ _ Hpre Hsel).
Qed.

Lemma extract_first_matching_strategy_witness :
  (_extract_reviews review_page empty_world).1
  = Ok [str "The paneer tikka was superb"]
  ∧ selects (_extract_reviews review_page empty_world).2
    = [str "p.sc-1hez2tp-0.sc-hfLElm.hreYiP"; str "p.sc-1hez2tp-0.hreYiP";
       str "p.hreYiP"].
Proof.
  apply (extract_first_matching_strategy review_page MIN_REVIEW_LENGTH
           [str "p.sc-1hez2tp-0.sc-hfLElm.hreYiP"; str "p.sc-1hez2tp-0.hreYiP"]
           (str "p.hreYiP") (drop 3 REVIEW_SELECTORS)
           [str "  The paneer tikka was superb  "] [[str " ok "]] empty_world).
  - repeat constructor; left; by vm_compute.
  - by vm_compute.
Defined.

(** C6. A block whose trimmed text has exactly [MIN_REVIEW_LENGTH] characters
    is dropped by [_extract_reviews], which asks for more than the minimum,
    while [validate_reviews], given the same minimum, keeps a review of that
    text. *)
Theorem extract_drops_block_of_minimum_length :
  get_text_strip [str "  exactly twenty chars "] = str "exactly twenty chars"
  ∧ length (str "exactly twenty chars") = MIN_REVIEW_LENGTH
  ∧ (_extract_reviews boundary_page empty_world).1 = Ok []
  ∧ passes_validation (Z.of_nat MIN_REVIEW_LENGTH)
      (mk_review sample_url 1 (Some (str "  exactly twenty chars ")) []) = true.
Proof. by vm_compute. Qed.

(** What [_extract_reviews] keeps of a block, in general. *)
Lemma keep_block_spec min_length reviews block :
  keep_block min_length reviews block =
    if decide (get_text_strip block ≠ [] ∧ min_length < length (get_text_strip block))
    then reviews ++ [get_text_strip block]
    else reviews.
Proof.
  unfold keep_block.
  destruct (decide _) as [[Hne Hlen]|Hno].
  - rewrite bool_decide_eq_false_2 by done.
    apply Nat.ltb_lt in Hlen. by rewrite Hlen.
  - case_bool_decide as Hnil; [done|]. cbn [negb andb].
    destruct (Nat.ltb_spec min_length (length (get_text_strip block))); [|done].
    by destruct Hno.
Qed.

(** ** The page crawler *)

Section CrawlFacts.

Variable web : pystr → result response.
Variable clock : nat → pystr.

Lemma append_loop_eq u p texts : ∀ w acc,
  for_each (append_review clock u p) texts (w, acc) =
    (Ok tt, (add_ticks (length texts) w, acc ++ stamp clock u p (ticks w) texts)).
Proof.
  induction texts as [|t texts IH]; intros w acc.
  - simpl. unfold ret, add_ticks. rewrite app_nil_r, Nat.add_0_r. by destruct w.
  - cbn [for_each]. unfold bind at 1.
    unfold append_review at 1. unfold bind, lift,
      CheckpointManager.datetime_now_isoformat, bind, get, modify, ret,
      update_local, modify. cbn [fst snd].
    rewrite IH. unfold add_ticks, add_tick. cbn [requests selects sleeps ticks files length stamp].
    replace (S (ticks w) + length texts) with (ticks w + S (length texts)) by lia.
    by rewrite <- app_assoc.
Qed.

Lemma _extract_reviews_eq soup w :
  _extract_reviews soup w =
    (Ok (extracted soup), log_selects (first_match soup REVIEW_SELECTORS).1 w).
Proof. apply extract_with_eq. Qed.

(** One turn of the page loop. *)
Lemma scrape_page_eq u p w acc :
  let url := page_url u p in
  let w1 := log_request url (add_sleep w) in
  scrape_page web clock u (_get_review_url u) p (w, acc) =
    match web url with
    | Ok resp =>
        if negb (Z.eqb (status_code resp) 200) then (Ok Break, (w1, acc))
        else
          match parsed resp with
          | Ok soup =>
              let w2 := log_selects (first_match soup REVIEW_SELECTORS).1 w1 in
              if bool_decide (extracted soup = []) then (Ok Break, (w2, acc))
              else (Ok Continue,
                    (add_ticks (length (extracted soup)) w2,
                     acc ++ stamp clock u p (ticks w) (extracted soup)))
          | Raise e => (Ok Break, (w1, acc))
          end
    | Raise e => (Ok Break, (w1, acc))
    end.
Proof.
  intros url w1. unfold scrape_page. fold (page_url u p). fold url.
  unfold try_except, bind, lift, time_sleep, session_get, bind, modify,
    of_result, ret. cbn [fst snd]. fold w1.
  destruct (web url) as [resp|e]; [|by destruct e].
  destruct (negb _); [done|].
  destruct (parsed resp) as [soup|e]; [|by destruct e].
  rewrite _extract_reviews_eq.
  case_bool_decide; [done|].
  by rewrite append_loop_eq.
Qed.

Lemma page_fails_no_reviews url : page_fails web url → page_reviews_of web url = [].
Proof.
  unfold page_reviews_of.
  intros [[e ->]|(resp & -> & [Hst|[e He]])]; [done| |].
  - by apply Z.eqb_neq in Hst as ->.
  - rewrite He. by destruct (_ =? _)%Z.
Qed.

Lemma fetched_reviews url soup :
  fetched web url soup → page_reviews_of web url = extracted soup.
Proof.
  intros (resp & Hweb & Hst & Hp). unfold page_reviews_of.
  by rewrite Hweb, Hst, Hp.
Qed.

Lemma scrape_page_spec u p w acc :
  let texts := page_reviews_of web (page_url u p) in
  ∃ w',
    scrape_page web clock u (_get_review_url u) p (w, acc)
    = (Ok (match texts with [] => Break | _ => Continue end),
       (w', acc ++ stamp clock u p (ticks w) texts))
    ∧ requests w' = requests w ++ [page_url u p]
    ∧ ticks w' = ticks w + length texts
    ∧ files w' = files w.
Proof.
  intros texts. rewrite scrape_page_eq. unfold texts, page_reviews_of.
  generalize (page_url u p) as url. intros url.
  assert (Hstop : ∃ w',
    (Ok Break, (log_request url (add_sleep w), acc))
    = (Ok Break, (w', acc ++ stamp clock u p (ticks w) []))
    ∧ requests w' = requests w ++ [url]
    ∧ ticks w' = ticks w + length (@nil pystr)
    ∧ files w' = files w).
  { eexists. cbn [stamp length]. rewrite app_nil_r, Nat.add_0_r.
    split; [reflexivity|]. split_and!; reflexivity. }
  destruct (web url) as [resp|e]; [|exact Hstop].
  destruct (status_code resp =? 200)%Z; cbn [negb]; [|exact Hstop].
  destruct (parsed resp) as [soup|e]; [|exact Hstop].
  generalize (first_match soup REVIEW_SELECTORS).1 as sels.
  generalize (extracted soup) as found. intros found sels.
  destruct found as [|t found].
  - rewrite bool_decide_eq_true_2 by reflexivity.
    eexists. cbn [stamp length]. rewrite app_nil_r, Nat.add_0_r.
    split; [reflexivity|]. split_and!; reflexivity.
  - rewrite bool_decide_eq_false_2 by discriminate.
    eexists. split; [reflexivity|]. split_and!; reflexivity.
Qed.

Lemma page_loop_good u ps rest : ∀ w acc,
  Forall (λ p, page_reviews_of web (page_url u p) ≠ []) ps →
  ∃ w',
    for_each (scrape_page web clock u (_get_review_url u)) (ps ++ rest) (w, acc)
    = for_each (scrape_page web clock u (_get_review_url u)) rest
        (w', acc ++ pages_records web clock u ps (ticks w))
    ∧ requests w' = requests w ++ map (page_url u) ps
    ∧ files w' = files w.
Proof.
  induction ps as [|p ps IH]; intros w acc Hgood.
  - exists w. cbn [app pages_records map]. by rewrite !app_nil_r.
  - apply Forall_cons in Hgood as [Hp Hps].
    destruct (scrape_page_spec u p w acc) as (w1 & Heq & Hreq & Htick & Hfiles).
    cbn [app for_each pages_records map]. unfold bind at 1. rewrite Heq.
    generalize dependent (page_reviews_of web (page_url u p)).
    intros [|t ts] Hp Heq Htick; [done|].
    destruct (IH w1 (acc ++ stamp clock u p (ticks w) (t :: ts)) Hps)
      as (w' & Heq' & Hreq' & Hfiles').
    exists w'. split_and!.
    + rewrite Heq', Htick. by rewrite <- app_assoc.
    + rewrite Hreq', Hreq. by rewrite <- app_assoc.
    + congruence.
Qed.

Lemma page_loop_stop u p rest w acc :
  page_reviews_of web (page_url u p) = [] →
  ∃ w',
    for_each (scrape_page web clock u (_get_review_url u)) (p :: rest) (w, acc)
    = (Ok tt, (w', acc))
    ∧ requests w' = requests w ++ [page_url u p]
    ∧ files w' = files w.
Proof.
  intros Hnil.
  destruct (scrape_page_spec u p w acc) as (w1 & Heq & Hreq & _ & Hfiles).
  rewrite Hnil in Heq. simpl in Heq. rewrite app_nil_r in Heq.
  exists w1. split_and!; [|done..].
  cbn [for_each]. unfold bind. by rewrite Heq.
Qed.

(** The crawl, when the pages split into good ones followed by a page that
    gives nothing (or by no page at all). *)
Lemma crawl_split u pre post w :
  seq 1 MAX_PAGES = pre ++ post →
  Forall (λ p, page_reviews_of web (page_url u p) ≠ []) pre →
  (∀ p, head post = Some p → page_reviews_of web (page_url u p) = []) →
  ∃ w',
    _scrape_restaurant_reviews web clock u w
    = (Ok (pages_records web clock u pre (ticks w)), w')
    ∧ requests w' = requests w ++ map (page_url u) (pre ++ take 1 post)
    ∧ files w' = files w.
Proof.
  intros Hsplit Hgood Hstop.
  unfold _scrape_restaurant_reviews, bind, with_local, try_except.
  rewrite Hsplit.
  destruct (page_loop_good u pre post w [] Hgood) as (w1 & Heq & Hreq & Hfiles).
  cbn [app] in Heq. rewrite Heq.
  destruct post as [|p post].
  - exists w1. cbn [for_each take]. unfold ret. by rewrite app_nil_r.
  - destruct (page_loop_stop u p post w1 (pages_records web clock u pre (ticks w)))
      as (w' & -> & Hreq' & Hfiles'); [by apply Hstop|].
    exists w'. split_and!; [done| |congruence].
    rewrite Hreq', Hreq, map_app. cbn [take map]. by rewrite <- app_assoc.
Qed.

(** Every list of pages splits into a longest run of good pages and the
    rest. *)
Lemma good_prefix u (ps : list nat) :
  ∃ pre post,
    ps = pre ++ post
    ∧ Forall (λ p, page_reviews_of web (page_url u p) ≠ []) pre
    ∧ ∀ p, head post = Some p → page_reviews_of web (page_url u p) = [].
Proof.
  induction ps as [|p ps (pre & post & -> & Hgood & Hstop)].
  - exists [], []. by split_and!.
  - destruct (decide (page_reviews_of web (page_url u p) = [])) as [Hnil|Hne].
    + exists [], (p :: pre ++ post). split_and!; [done|constructor|].
      intros q [= <-]. done.
    + exists (p :: pre), post. split_and!; [done|by constructor|done].
Qed.

Lemma untimed_stamp u p t0 texts :
  map untimed (stamp clock u p t0 texts) = tagged u p texts.
Proof.
  revert t0. induction texts as [|t texts IH]; intros t0; [done|].
  simpl. by rewrite IH.
Qed.

Lemma untimed_pages_records u ps : ∀ t0,
  map untimed (pages_records web clock u ps t0)
  = flat_map (λ p, tagged u p (page_reviews_of web (page_url u p))) ps.
Proof.
  induction ps as [|p ps IH]; intros t0; [done|].
  simpl. by rewrite map_app, untimed_stamp, IH.
Qed.

Lemma scraped_at_stamp u p texts : ∀ t0,
  map scraped_at (stamp clock u p t0 texts) = map clock (seq t0 (length texts)).
Proof.
  induction texts as [|t texts IH]; intros t0; [done|].
  simpl. by rewrite IH.
Qed.

Lemma length_stamp u p t0 texts : length (stamp clock u p t0 texts) = length texts.
Proof. revert t0. induction texts; intros; simpl; auto. Qed.

Lemma scraped_at_pages_records u ps : ∀ t0,
  map scraped_at (pages_records web clock u ps t0)
  = map clock (seq t0 (length (pages_records web clock u ps t0))).
Proof.
  induction ps as [|p ps IH]; intros t0; [done|].
  simpl. rewrite map_app, scraped_at_stamp, IH, length_app, length_stamp.
  by rewrite seq_app, map_app.
Qed.

End CrawlFacts.

Lemma flat_map_ext_Forall {A B} (f g : A → list B) (l : list A) :
  Forall (λ a, f a = g a) l → flat_map f l = flat_map g l.
Proof. induction 1 as [|a l Ha _ IH]; simpl; congruence. Qed.

(** The crawl when page [k] is the first that gives nothing. *)
Lemma crawl_stops_at (web : pystr → result response) (clock : nat → pystr)
    (u : pystr) (k : nat) (w : world) :
  1 ≤ k ≤ MAX_PAGES →
  (∀ p, 1 ≤ p < k → page_reviews_of web (page_url u p) ≠ []) →
  page_reviews_of web (page_url u k) = [] →
  ∃ w',
    _scrape_restaurant_reviews web clock u w
    = (Ok (pages_records web clock u (seq 1 (k - 1)) (ticks w)), w')
    ∧ requests w' = requests w ++ map (page_url u) (seq 1 k)
    ∧ files w' = files w.
Proof.
  intros Hk Hgood Hnone.
  assert (Hsplit : seq 1 MAX_PAGES = seq 1 (k - 1) ++ seq k (MAX_PAGES - k + 1)).
  { replace MAX_PAGES with ((k - 1) + (MAX_PAGES - k + 1)) at 1 by lia.
    rewrite seq_app. do 2 f_equal; try lia. }
  assert (Hpre : Forall (λ p, page_reviews_of web (page_url u p) ≠ [])
                        (seq 1 (k - 1))).
  { apply Forall_forall. intros p Hp%elem_of_seq. apply Hgood. lia. }
  destruct (crawl_split web clock u _ _ w Hsplit Hpre) as (w' & Heq & Hreq & Hf).
  { replace (MAX_PAGES - k + 1) with (S (MAX_PAGES - k)) by lia.
    by intros p [= <-]. }
  exists w'. split_and!; [exact Heq| |exact Hf].
  rewrite Hreq. do 2 f_equal.
  replace (MAX_PAGES - k + 1) with (S (MAX_PAGES - k)) by lia.
  cbn [seq take]. destruct k as [|k]; [lia|].
  replace (S k - 1) with k by lia. by rewrite seq_S.
Qed.

(** C4. If pages 1 to k-1 are fetched and each gives at least one block, and
    page k (k at most [MAX_PAGES]) is fetched and gives none, the crawl
    requests pages 1 to k and no other, and returns the records of pages 1 to
    k-1 in order, each with the identifier and the number of its page, stamped
    with successive readings of the clock. *)
Theorem crawl_stops_at_empty_page
    (web : pystr → result response) (clock : nat → pystr)
    (u : pystr) (k : nat) (soups : nat → BeautifulSoup) (w : world) :
  1 ≤ k ≤ MAX_PAGES →
  (∀ p, 1 ≤ p < k →
        fetched web (page_url u p) (soups p) ∧ extracted (soups p) ≠ []) →
  fetched web (page_url u k) (soups k) →
  extracted (soups k) = [] →
  ∃ recs w',
    _scrape_restaurant_reviews web clock u w = (Ok recs, w')
    ∧ map untimed recs
      = flat_map (λ p, tagged u p (extracted (soups p))) (seq 1 (k - 1))
    ∧ map scraped_at recs = map clock (seq (ticks w) (length recs))
    ∧ requests w' = requests w ++ map (page_url u) (seq 1 k).
Proof.
  intros Hk Hgood Hfetch Hnone.
  destruct (crawl_stops_at web clock u k w Hk) as (w' & Heq & Hreq & _).
  { intros p Hp. destruct (Hgood p Hp) as [Hf Hne].
    by rewrite (fetched_reviews _ _ _ Hf). }
  { by rewrite (fetched_reviews _ _ _ Hfetch). }
  eexists _, w'. split_and!; [exact Heq| | |exact Hreq].
  - rewrite untimed_pages_records. apply flat_map_ext_Forall, Forall_forall.
    intros p Hp%elem_of_seq. destruct (Hgood p ltac:(lia)) as [Hf _].
    by rewrite (fetched_reviews _ _ _ Hf).
  - apply scraped_at_pages_records.
Qed.

Lemma crawl_stops_at_empty_page_witness :
  ∃ recs w',
    _scrape_restaurant_reviews sample_web sample_clock sample_url empty_world
    = (Ok recs, w')
    ∧ map untimed recs
      = flat_map (λ p, tagged sample_url p (extracted (sample_soups p))) (seq 1 (2 - 1))
    ∧ map scraped_at recs = map sample_clock (seq (ticks empty_world) (length recs))
    ∧ requests w'
      = requests empty_world ++ map (page_url sample_url) (seq 1 2).
Proof.
  apply (crawl_stops_at_empty_page sample_web sample_clock sample_url 2
           sample_soups empty_world).
  - vm_compute. lia.
  - intros p Hp. assert (p = 1) as -> by lia. split.
    + exists (mk_response 200 (Ok review_page)). by vm_compute.
    + by vm_compute.
  - exists (mk_response 200 (Ok empty_page)). by vm_compute.
  - by vm_compute.
Defined.

(** The crawl always returns a list. *)
Lemma crawl_total (web : pystr → result response) (clock : nat → pystr)
    (u : pystr) (w : world) :
  ∃ recs w', _scrape_restaurant_reviews web clock u w = (Ok recs, w').
Proof.
  destruct (good_prefix web u (seq 1 MAX_PAGES))
    as (pre & post & Hsplit & Hgood & Hstop).
  destruct (crawl_split web clock u pre post w Hsplit Hgood Hstop)
    as (w' & Heq & _).
  eauto.
Qed.

(** C8. Whatever the pages do (a response with any status, a time-out, a
    request error, a body that does not parse), the crawl returns a list and
    never raises: it stops at the first page that fails or gives no block, and
    the list holds the records of the pages before that one. *)
Theorem crawl_never_raises
    (web : pystr → result response) (clock : nat → pystr)
    (u : pystr) (w : world) :
  ∃ recs w' k,
    _scrape_restaurant_reviews web clock u w = (Ok recs, w')
    ∧ k ≤ MAX_PAGES
    ∧ (∀ p, 1 ≤ p ≤ k → page_reviews_of web (page_url u p) ≠ [])
    ∧ (k < MAX_PAGES → page_reviews_of web (page_url u (S k)) = [])
    ∧ (∀ p, 1 ≤ p → page_fails web (page_url u p) → k < p)
    ∧ map untimed recs
      = flat_map (λ p, tagged u p (page_reviews_of web (page_url u p))) (seq 1 k)
    ∧ files w' = files w.
Proof.
  destruct (good_prefix web u (seq 1 MAX_PAGES))
    as (pre & post & Hsplit & Hgood & Hstop).
  destruct (crawl_split web clock u pre post w Hsplit Hgood Hstop)
    as (w' & Heq & _ & Hfiles).
  assert (Hlen : length pre + length post = MAX_PAGES).
  { by rewrite <- length_app, <- Hsplit, length_seq. }
  assert (Hpre : pre = seq 1 (length pre)).
  { assert (Htake : take (length pre) (seq 1 MAX_PAGES) = pre)
      by (rewrite Hsplit; apply take_app_length).
    rewrite take_seq, Nat.min_l in Htake by lia. done. }
  assert (Hall : ∀ p, 1 ≤ p ≤ length pre →
                      page_reviews_of web (page_url u p) ≠ []).
  { intros p Hp. rewrite Forall_forall in Hgood. apply Hgood.
    rewrite Hpre. apply elem_of_seq. lia. }
  exists (pages_records web clock u pre (ticks w)), w', (length pre).
  split_and!; [exact Heq|lia|exact Hall| | | |exact Hfiles].
  - intros Hlt. apply Hstop.
    rewrite <- (drop_app_length pre post), <- Hsplit, drop_seq.
    replace (MAX_PAGES - length pre) with (S (MAX_PAGES - S (length pre))) by lia.
    reflexivity.
  - intros p Hp Hfail. apply page_fails_no_reviews in Hfail.
    destruct (decide (p ≤ length pre)) as [Hle|]; [|lia].
    by destruct (Hall p ltac:(lia)).
  - rewrite untimed_pages_records. by rewrite <- Hpre.
Qed.

Lemma crawl_never_raises_witness :
  ∃ recs w',
    _scrape_restaurant_reviews (λ _, Raise Timeout) sample_clock sample_url empty_world
    = (Ok recs, w').
Proof.
  destruct (crawl_never_raises (λ _, Raise Timeout) sample_clock sample_url empty_world)
    as (recs & w' & k & Heq & _).
  by exists recs, w'.
Defined.

(** ** The checkpoint store *)

Section CheckpointFacts.

Import CheckpointManager.

Variable clock : nat → pystr.

Lemma save_checkpoint_list file (l : list json) reviews w :
  ∃ last_processed,
    save_checkpoint clock file (JList l) reviews w
    = (Ok tt,
       set_files
         (<[file := JsonDoc
              (JObj [ (str "processed_urls", JList l);
                      (str "total_reviews", JInt (Z.of_nat (length reviews)));
                      (str "timestamp", JStr (clock (ticks w)));
                      (str "last_processed", last_processed) ])]>
            (files w))
         (add_tick w)).
Proof.
  unfold save_checkpoint, bind, datetime_now_isoformat, bind, get, modify, ret,
    json_dump, modify, of_result.
  destruct l as [|x l].
  - exists JNull. reflexivity.
  - destruct (last (x :: l)) as [y|] eqn:Hlast.
    + exists y. cbn [truthy length negb py_last py_len]. rewrite Hlast.
      by rewrite bool_decide_eq_false_2 by done.
    + by apply last_None in Hlast.
Qed.

Lemma load_checkpoint_absent file w :
  files w !! file = None → load_checkpoint file w = (Ok (JList []), w).
Proof.
  intros Hnone. unfold load_checkpoint, bind, os_path_exists, bind, get, ret.
  rewrite Hnone. rewrite bool_decide_eq_false_2; [done|]. by intros [? ?].
Qed.

Lemma load_checkpoint_present file w c :
  files w !! file = Some c →
  load_checkpoint file w =
    match c with
    | JsonDoc (JObj kv) =>
        match py_len (obj_get kv (str "processed_urls") (JList [])) with
        | Ok _ => (Ok (obj_get kv (str "processed_urls") (JList [])), w)
        | Raise _ => (Ok (JList []), w)
        end
    | _ => (Ok (JList []), w)
    end.
Proof.
  intros Hsome. unfold load_checkpoint, bind at 1, os_path_exists, bind, get, ret.
  rewrite Hsome. rewrite bool_decide_eq_true_2 by eauto.
  unfold try_except, bind, json_load, bind, get, of_result, ret, raise.
  rewrite Hsome.
  destruct c as [v| |]; [|done..].
  destruct v as [| | | | |kv]; try done.
  cbn [get_processed_urls].
  by destruct (py_len _).
Qed.

End CheckpointFacts.

(** C5. Saving a list of identifiers, with any list of reviews to count, and
    then loading gives back the same identifiers in the same order; the save
    does not raise. *)
Theorem checkpoint_roundtrip
    (clock : nat → pystr) (file : pystr) (ids : list pystr)
    (all_reviews : list review_dict) (w : world) :
  (CheckpointManager.save_checkpoint clock file (JList (map JStr ids)) all_reviews w).1
  = Ok tt
  ∧ CheckpointManager.load_checkpoint file
      (CheckpointManager.save_checkpoint clock file (JList (map JStr ids)) all_reviews w).2
    = (Ok (JList (map JStr ids)),
       (CheckpointManager.save_checkpoint clock file (JList (map JStr ids)) all_reviews w).2).
Proof.
  destruct (save_checkpoint_list clock file (map JStr ids) all_reviews w)
    as (last_processed & ->).
  split; [done|]. cbn [snd].
  erewrite load_checkpoint_present.
  2:{ cbn [files set_files]. apply lookup_insert_eq. }
  cbn [obj_get fst snd]. rewrite bool_decide_eq_true_2 by done.
  done.
Qed.

Lemma load_checkpoint_total (file : pystr) (w : world) :
  ∃ v, CheckpointManager.load_checkpoint file w = (Ok v, w).
Proof.
  destruct (files w !! file) as [c|] eqn:Hfile.
  - rewrite (load_checkpoint_present file w c Hfile).
    destruct c as [[| | | | |kv]| |]; eauto.
    destruct (py_len _); eauto.
  - rewrite (load_checkpoint_absent file w Hfile). eauto.
Qed.

(** C7. [load_checkpoint] never raises, and it returns the empty list when
    there is no checkpoint file or when nothing can be read from it. *)
Theorem load_checkpoint_nonfatal (file : pystr) (w : world) :
  (∃ v, CheckpointManager.load_checkpoint file w = (Ok v, w))
  ∧ (unreadable (files w !! file) = true →
     CheckpointManager.load_checkpoint file w = (Ok (JList []), w)).
Proof.
  split; [apply load_checkpoint_total|].
  destruct (files w !! file) as [c|] eqn:Hfile.
  - rewrite (load_checkpoint_present file w c Hfile).
    by destruct c as [[| | | | |kv]| |].
  - by rewrite (load_checkpoint_absent file w Hfile).
Qed.

Lemma load_checkpoint_nonfatal_witness :
  unreadable (files (set_files {[CHECKPOINT_FILE := Garbled]} empty_world)
              !! CHECKPOINT_FILE) = true
  ∧ CheckpointManager.load_checkpoint CHECKPOINT_FILE
      (set_files {[CHECKPOINT_FILE := Garbled]} empty_world)
    = (Ok (JList []), set_files {[CHECKPOINT_FILE := Garbled]} empty_world).
Proof.
  split; [by vm_compute|].
  apply (load_checkpoint_nonfatal CHECKPOINT_FILE
           (set_files {[CHECKPOINT_FILE := Garbled]} empty_world)).
  by vm_compute.
Defined.

(** ** The orchestrator *)

Section OrchestratorFacts.

Variable web : pystr → result response.
Variable clock : nat → pystr.

Lemma grows_refl p : grows p p.
Proof. by left. Qed.

Lemma grows_trans p q r : grows p q → grows q r → grows p r.
Proof.
  intros [->|(l & a & -> & ->)] [->|(l' & a' & Hq & ->)].
  - by left.
  - right. eauto.
  - right. eauto.
  - injection Hq as <-. right. exists l, (a ++ a').
    by rewrite map_app, app_assoc.
Qed.

Lemma grows_append l u : grows (JList l) (JList (l ++ [JStr u])).
Proof. right. by exists l, [u]. Qed.

(** One turn of the loop never removes anything from [processed_urls]. *)
Lemma process_url_grows i u all p w all' p' w' :
  process_url web clock i u (all, p) w = (Ok (all', p'), w') → grows p p'.
Proof.
  unfold process_url, bind at 1, of_result at 1.
  destruct (py_in u p) as [[|]|e]; [| |done].
  { unfold ret. intros [= _ <- _]. apply grows_refl. }
  unfold bind at 1.
  destruct (_scrape_restaurant_reviews web clock u w) as [[recs|e] w1]; [|done].
  unfold bind at 1, of_result at 1.
  destruct p as [| | | |l|]; try done. cbn [py_append].
  destruct (_ =? _).
  - unfold bind at 1.
    destruct (CheckpointManager.save_checkpoint _ _ _ _ _) as [[[]|e] w2]; [|done].
    unfold bind at 1.
    destruct (negb _).
    + unfold to_csv, modify, ret. intros [= _ <- _]. apply grows_append.
    + unfold ret. intros [= _ <- _]. apply grows_append.
  - unfold ret. intros [= _ <- _]. apply grows_append.
Qed.

Lemma scrape_loop_grows items : ∀ all p w all' p' w',
  scrape_loop web clock items (all, p) w = (Ok (all', p'), w') → grows p p'.
Proof.
  induction items as [|[i u] items IH]; intros all p w all' p' w'.
  - cbn [scrape_loop]. unfold ret. intros [= _ <- _]. apply grows_refl.
  - cbn [scrape_loop]. unfold bind.
    destruct (process_url web clock i u (all, p) w) as [[[all1 p1]|e] w1] eqn:Hstep;
      [|done].
    intros Hrest. eapply grows_trans.
    + by eapply process_url_grows.
    + by eapply IH.
Qed.

Lemma scrape_loop_app items1 items2 locals w :
  scrape_loop web clock (items1 ++ items2) locals w =
    match scrape_loop web clock items1 locals w with
    | (Ok locals', w') => scrape_loop web clock items2 locals' w'
    | (Raise e, w') => (Raise e, w')
    end.
Proof.
  revert locals w. induction items1 as [|[i u] items1 IH]; intros locals w.
  - reflexivity.
  - cbn [app scrape_loop]. unfold bind.
    destruct (process_url web clock i u locals w) as [[locals1|e] w1]; [|done].
    apply IH.
Qed.

(** A turn for an identifier that is already in the list. *)
Lemma process_url_skip i u all l w :
  existsb (str_eq u) l = true →
  process_url web clock i u (all, JList l) w = (Ok (all, JList l), w).
Proof.
  intros Hin. unfold process_url, bind, of_result. cbn [py_in]. by rewrite Hin.
Qed.

(** A turn for an identifier that is not in the list yet: whatever the crawl
    met, the identifier is appended. *)
Lemma process_url_new i u all l w :
  existsb (str_eq u) l = false →
  ∃ recs w1 w',
    _scrape_restaurant_reviews web clock u w = (Ok recs, w1)
    ∧ process_url web clock i u (all, JList l) w
      = (Ok (all ++ recs, JList (l ++ [JStr u])), w').
Proof.
  intros Hin.
  destruct (crawl_total web clock u w) as (recs & w1 & Heq).
  exists recs, w1.
  unfold process_url, bind at 1, of_result at 1. cbn [py_in]. rewrite Hin.
  unfold bind at 1. rewrite Heq.
  unfold bind at 1, of_result at 1. cbn [py_append].
  destruct (_ =? _).
  - unfold bind at 1.
    destruct (save_checkpoint_list clock CHECKPOINT_FILE (l ++ [JStr u])
                (all ++ recs) w1) as (lp & ->).
    unfold bind at 1. destruct (negb _); eexists; split; reflexivity.
  - eexists. split; reflexivity.
Qed.

Lemma process_url_list i u all l w :
  ∃ all' added w',
    process_url web clock i u (all, JList l) w
    = (Ok (all', JList (l ++ map JStr added)), w').
Proof.
  destruct (existsb (str_eq u) l) eqn:Hin.
  - exists all, [], w. rewrite app_nil_r. by apply process_url_skip.
  - destruct (process_url_new i u all l w Hin) as (recs & w1 & w' & _ & ->).
    by exists (all ++ recs), [u], w'.
Qed.

(** With a list for [processed_urls] the loop never raises. *)
Lemma scrape_loop_list items : ∀ all l w,
  ∃ all' added w',
    scrape_loop web clock items (all, JList l) w
    = (Ok (all', JList (l ++ map JStr added)), w').
Proof.
  induction items as [|[i u] items IH]; intros all l w.
  - exists all, [], w. by rewrite app_nil_r.
  - cbn [scrape_loop]. unfold bind.
    destruct (process_url_list i u all l w) as (all1 & added1 & w1 & ->).
    destruct (IH all1 (l ++ map JStr added1) w1) as (all2 & added2 & w2 & ->).
    exists all2, (added1 ++ added2), w2. by rewrite map_app, app_assoc.
Qed.

End OrchestratorFacts.

(** C9. During a run, [processed_urls] starts as what [load_checkpoint]
    returned and only grows: its value after any number of turns of the loop
    is its value after fewer turns with identifiers added at the end.  When
    the checkpoint holds a list (or there is none), every turn is reached. *)
Theorem processed_urls_only_grow
    (web : pystr → result response) (clock : nat → pystr)
    (urls : list pystr) (w : world) :
  (∃ p0, CheckpointManager.load_checkpoint CHECKPOINT_FILE w = (Ok p0, w)
         ∧ processed_after web clock urls w 0 = Some p0)
  ∧ (∀ j k p', j ≤ k →
       processed_after web clock urls w k = Some p' →
       ∃ p, processed_after web clock urls w j = Some p ∧ grows p p')
  ∧ (∀ l n, CheckpointManager.load_checkpoint CHECKPOINT_FILE w = (Ok (JList l), w) →
       ∃ added, processed_after web clock urls w n = Some (JList (l ++ map JStr added))).
Proof.
  destruct (load_checkpoint_total CHECKPOINT_FILE w) as [p0 Hload].
  unfold processed_after, bind. rewrite Hload. split_and!.
  - exists p0. split; [done|]. by rewrite take_0.
  - intros j k p' Hjk.
    rewrite <- (take_drop j (take k (enumerate_from 0 urls))).
    rewrite take_take, Nat.min_l by lia.
    rewrite scrape_loop_app.
    destruct (scrape_loop web clock (take j _) ([], p0) w)
      as [[[all p]|e] w1]; [|done].
    destruct (scrape_loop web clock (drop j _) (all, p) w1)
      as [[[all' p'']|e] w2] eqn:Hrest; [|done].
    intros [= <-]. exists p. split; [done|]. cbn [snd].
    by eapply scrape_loop_grows.
  - intros l n [= ->].
    destruct (scrape_loop_list web clock (take n (enumerate_from 0 urls)) [] l w)
      as (all' & added & w' & ->).
    by exists added.
Qed.

Lemma processed_urls_only_grow_witness :
  ∃ p, processed_after sample_web sample_clock [sample_url] empty_world 0 = Some p
       ∧ grows p (JList [JStr sample_url]).
Proof.
  apply (proj1 (proj2 (processed_urls_only_grow sample_web sample_clock
                         [sample_url] empty_world)) 0 1).
  - lia.
  - by vm_compute.
Defined.

Section MarkingFacts.

Variable web : pystr → result response.
Variable clock : nat → pystr.

Lemma existsb_str_eq_app u l l' :
  existsb (str_eq u) l = true → existsb (str_eq u) (l ++ l') = true.
Proof. intros H. by rewrite existsb_app, H. Qed.

Lemma existsb_str_eq_last u l :
  existsb (str_eq u) (l ++ [JStr u]) = true.
Proof.
  rewrite existsb_app. cbn [existsb str_eq].
  rewrite bool_decide_eq_true_2 by done. by rewrite orb_true_r.
Qed.

(** After the loop, the identifiers that were in the list are still in it,
    and so is every identifier the loop went over. *)
Lemma scrape_loop_marks items : ∀ all l w all' l' w',
  scrape_loop web clock items (all, JList l) w = (Ok (all', JList l'), w') →
  (∀ x, existsb (str_eq x) l = true → existsb (str_eq x) l' = true)
  ∧ (∀ i x, (i, x) ∈ items → existsb (str_eq x) l' = true).
Proof.
  induction items as [|[i u] items IH]; intros all l w all' l' w'.
  - cbn [scrape_loop]. unfold ret. intros [= _ <- _]. split; [done|].
    intros i x Hin. by apply elem_of_nil in Hin.
  - cbn [scrape_loop]. unfold bind.
    destruct (existsb (str_eq u) l) eqn:Hin.
    + rewrite (process_url_skip web clock i u all l w Hin).
      intros Hrest. destruct (IH _ _ _ _ _ _ Hrest) as [Hkeep Hnew].
      split; [done|]. intros j x [[= -> ->]|Hx]%elem_of_cons; eauto.
    + destruct (process_url_new web clock i u all l w Hin)
        as (recs & w1 & w2 & _ & ->).
      intros Hrest. destruct (IH _ _ _ _ _ _ Hrest) as [Hkeep Hnew].
      split.
      * intros x Hx. by apply Hkeep, existsb_str_eq_app.
      * intros j x [[= -> ->]|Hx]%elem_of_cons; [|by eauto].
        apply Hkeep, existsb_str_eq_last.
Qed.

Lemma elem_of_enumerate_from {X} (x : X) (xs : list X) : ∀ n,
  x ∈ xs → ∃ i, (i, x) ∈ enumerate_from n xs.
Proof.
  induction xs as [|y xs IH]; intros n Hin; [by apply elem_of_nil in Hin|].
  apply elem_of_cons in Hin as [->|Hin].
  - exists n. left.
  - destruct (IH (S n) Hin) as [i Hi]. exists i. by right.
Qed.

End MarkingFacts.

(** X22. A run that starts from a checkpoint holding a list (or from
    none) never raises, whatever errors the pages of its identifiers meet:
    the page crawler turns them into an early stop, the loop goes on to the
    next identifier, and every identifier of the input, the failing ones
    too, is in the checkpoint saved at the end, so that the next run skips
    it. *)
Theorem run_marks_every_identifier
    (web : pystr → result response) (clock : nat → pystr)
    (urls : list pystr) (w : world) (l : list json) :
  CheckpointManager.load_checkpoint CHECKPOINT_FILE w = (Ok (JList l), w) →
  (∃ all w', scrape_all_reviews web clock urls w = (Ok all, w'))
  ∧ ∀ u, u ∈ urls → skipped_by_next_run web clock urls w u.
Proof.
  intros Hload.
  destruct (scrape_loop_list web clock (enumerate_from 0 urls) [] l w)
    as (all & added & w1 & Hloop).
  destruct (save_checkpoint_list clock CHECKPOINT_FILE (l ++ map JStr added) all w1)
    as (lp & Hsave).
  assert (Hrun : scrape_all_reviews web clock urls w
                 = (Ok all, (CheckpointManager.save_checkpoint clock CHECKPOINT_FILE
                               (JList (l ++ map JStr added)) all w1).2)).
  { unfold scrape_all_reviews, bind at 1. rewrite Hload.
    unfold bind at 1. rewrite Hloop. unfold bind. cbn [fst snd].
    by rewrite Hsave. }
  split; [eauto|].
  intros u Hu. eexists _, _, _. split; [exact Hrun|]. split.
  - rewrite Hsave. cbn [snd]. erewrite load_checkpoint_present.
    2:{ cbn [files set_files]. apply lookup_insert_eq. }
    cbn [obj_get fst snd]. rewrite bool_decide_eq_true_2 by done.
    reflexivity.
  - cbn [py_in]. f_equal.
    destruct (elem_of_enumerate_from u urls 0 Hu) as [i Hi].
    destruct (scrape_loop_marks web clock _ _ _ _ _ _ _ Hloop) as [_ Hnew].
    by eapply Hnew.
Qed.

Lemma run_marks_every_identifier_witness :
  skipped_by_next_run (λ _, Raise Timeout) sample_clock [sample_url] empty_world
    sample_url.
Proof.
  apply (proj2 (run_marks_every_identifier (λ _, Raise Timeout) sample_clock
                  [sample_url] empty_world [] ltac:(by vm_compute))).
  left.
Defined.

(** * Further properties of the code *)

(** ** More on strings and the clean-up *)

Section CleanFacts.

Implicit Types (s t : pystr) (c : ascii).

Lemma split_word t :
  t ≠ [] → Forall (λ c, isspace c = false) t → split t = [t].
Proof.
  induction t as [|a t IH]; [done|]. intros _ Hall.
  apply Forall_cons in Hall as [Ha Hall]. cbn [split]. rewrite Ha.
  destruct t as [|b t]; [done|].
  rewrite IH by done. cbn [starts_with_space].
  apply Forall_cons in Hall as [Hb _]. by rewrite Hb.
Qed.

Lemma split_word_app t c s :
  t ≠ [] → Forall (λ c, isspace c = false) t → isspace c = true →
  split (t ++ c :: s) = t :: split s.
Proof.
  induction t as [|a t IH]; [done|]. intros _ Hall Hc.
  apply Forall_cons in Hall as [Ha Hall].
  cbn [app split]. rewrite Ha.
  destruct t as [|b t].
  - cbn [app split starts_with_space]. rewrite Hc. by destruct (split s).
  - rewrite IH by done. cbn [app starts_with_space].
    apply Forall_cons in Hall as [Hb _]. by rewrite Hb.
Qed.

Lemma split_join (ws : list pystr) :
  Forall (λ t, t ≠ [] ∧ Forall (λ c, isspace c = false) t) ws →
  split (join (str " ") ws) = ws.
Proof.
  induction 1 as [|t ws [Hne Hall] Hws IH]; [done|].
  destruct ws as [|t' ws].
  - by apply split_word.
  - change (join (str " ") (t :: t' :: ws))
      with (t ++ " "%char :: join (str " ") (t' :: ws)).
    rewrite split_word_app by done. by rewrite IH.
Qed.

Lemma join_split_idem s :
  join (str " ") (split (join (str " ") (split s))) = join (str " ") (split s).
Proof. by rewrite (split_join _ (split_words s)). Qed.

Lemma lstrip_nonspace c s : isspace c = false → lstrip (c :: s) = c :: s.
Proof. intros Hc. cbn [lstrip]. by rewrite Hc. Qed.

Lemma join_words_head sep (ws : list pystr) :
  ws ≠ [] →
  Forall (λ t, t ≠ [] ∧ Forall (λ c, isspace c = false) t) ws →
  ∃ c s, join sep ws = c :: s ∧ isspace c = false.
Proof.
  destruct ws as [|t ws]; [done|]. intros _ Hall.
  apply Forall_cons in Hall as [[Hne Ht] _].
  destruct t as [|a t]; [done|]. apply Forall_cons in Ht as [Ha _].
  destruct ws; cbn [join app]; eauto.
Qed.

Lemma strip_join_split s :
  strip (join (str " ") (split s)) = join (str " ") (split s).
Proof.
  destruct (split s) as [|t ts] eqn:E; [done|].
  assert (Hw := split_words s). rewrite E in Hw.
  destruct (join_words_head (str " ") (t :: ts) ltac:(done) Hw)
    as (c & r & Hj & Hc).
  unfold strip. rewrite Hj, (lstrip_nonspace _ _ Hc), <- Hj.
  apply rstrip_ends_id, join_ends; [done|].
  eapply Forall_impl; [exact Hw|]. intros w [??]. by apply word_ends.
Qed.

(** The characters of a normalised text are blanks and characters that are
    not whitespace. *)
Lemma join_split_chars s :
  Forall (λ c, c = " "%char ∨ isspace c = false) (join (str " ") (split s)).
Proof.
  assert (Hw := split_words s).
  induction Hw as [|t ws [_ Ht] _ IH]; [constructor|].
  assert (Ht' : Forall (λ c, c = " "%char ∨ isspace c = false) t).
  { eapply Forall_impl; [exact Ht|]. naive_solver. }
  destruct ws as [|t' ws]; cbn [join]; [done|].
  apply Forall_app. split; [done|].
  apply Forall_app. split; [|done]. constructor; [by left|constructor].
Qed.

Lemma replace_from_chars (P : ascii → Prop) old new s : ∀ skip,
  Forall P s → Forall P new → Forall P (replace_from old new skip s).
Proof.
  induction s as [|c s IH]; intros skip Hs Hnew; [constructor|].
  apply Forall_cons in Hs as [Hc Hs]. cbn [replace_from].
  destruct skip; [|by apply IH].
  destruct (startswith old (c :: s)).
  - apply Forall_app. split; [done|]. by apply IH.
  - constructor; [done|]. by apply IH.
Qed.

(** A pattern holding a character that the text does not hold is not
    found. *)
Lemma replace_absent c old new s :
  c ∈ old → c ∉ s → replace old new s = s.
Proof.
  intros Hold Hs. unfold replace.
  destruct old as [|o old]; [by apply elem_of_nil in Hold|].
  induction s as [|x s IH]; [done|].
  apply not_elem_of_cons in Hs as [Hx Hs]. cbn [replace_from].
  destruct (startswith (o :: old) (x :: s)) eqn:Hst.
  - apply startswith_spec in Hst as [rest Hrest].
    assert (Hin : c ∈ x :: s).
    { rewrite Hrest. apply elem_of_app. by left. }
    apply elem_of_cons in Hin as [->|Hin]; done.
  - by rewrite IH.
Qed.

Lemma space_only_blank (P := λ c, c = " "%char ∨ isspace c = false) c s :
  Forall P s → isspace c = true → c ≠ " "%char → c ∉ s.
Proof.
  intros Hs Hc Hne Hin. rewrite Forall_forall in Hs.
  destruct (Hs c Hin); congruence.
Qed.

Lemma length_join_split s :
  length (join (str " ") (split s)) ≤ length s
  ∧ (starts_with_space s = true → s ≠ [] →
     length (join (str " ") (split s)) + 1 ≤ length s).
Proof.
  induction s as [|c s [IH1 IH2]]; [by split|].
  cbn [split starts_with_space length].
  destruct (isspace c) eqn:Hc.
  - split; [lia|]. intros _ _. lia.
  - split; [|done].
    destruct (split s) as [|t ts] eqn:E.
    + cbn [join length]. lia.
    + destruct (starts_with_space s) eqn:Hs.
      * assert (s ≠ []) by (intros ->; done).
        specialize (IH2 eq_refl ltac:(done)).
        cbn [join] in *. rewrite !length_app in *.
        change (length (str " ")) with 1 in *. cbn [length]. lia.
      * assert (join (str " ") ((c :: t) :: ts) = c :: join (str " ") (t :: ts))
          as -> by (by destruct ts).
        cbn [length]. lia.
Qed.

Lemma length_lstrip s : length (lstrip s) ≤ length s.
Proof.
  induction s as [|c s IH]; [done|]. cbn [lstrip].
  destruct (isspace c); cbn [length]; lia.
Qed.

Lemma length_rstrip s : length (rstrip s) ≤ length s.
Proof.
  induction s as [|c s IH]; [done|]. cbn [rstrip].
  destruct (rstrip s); [destruct (isspace c)|]; cbn [length] in *; lia.
Qed.

Lemma length_strip s : length (strip s) ≤ length s.
Proof.
  unfold strip. etrans; [apply length_rstrip|apply length_lstrip].
Qed.

Lemma startswith_length old s :
  startswith old s = true → length old ≤ length s.
Proof.
  intros [rest ->]%startswith_spec. rewrite length_app. lia.
Qed.

Lemma length_replace_from old new s : ∀ skip,
  length new ≤ length old →
  length (replace_from old new skip s) ≤ length s - skip.
Proof.
  induction s as [|c s IH]; intros skip Hlen; [cbn; lia|].
  cbn [replace_from]. destruct skip as [|k].
  - destruct (startswith old (c :: s)) eqn:Hst.
    + apply startswith_length in Hst. cbn [length] in Hst.
      rewrite length_app. specialize (IH (length old - 1) Hlen).
      cbn [length]. lia.
    + specialize (IH 0 Hlen). cbn [length]. lia.
  - specialize (IH k Hlen). cbn [length]. lia.
Qed.

Lemma length_replace old new s :
  old ≠ [] → length new ≤ length old →
  length (replace old new s) ≤ length s.
Proof.
  intros Hne Hlen. unfold replace. destruct old as [|o old]; [done|].
  etrans; [by apply length_replace_from|]. lia.
Qed.

End CleanFacts.

(** X1. The text [clean_review_text] returns is in normal form: trimming it
    or normalising its whitespace again changes nothing. *)
Theorem clean_review_text_normal (text : pystr) :
  strip (clean_review_text text) = clean_review_text text
  ∧ join (str " ") (split (clean_review_text text)) = clean_review_text text.
Proof.
  unfold clean_review_text. case_bool_decide; [done|].
  rewrite !strip_join_split. split; [done|]. apply join_split_idem.
Qed.

(** X2. Of the five patterns of [clean_review_text] only ["Rated "] can be
    found: the text is normalised before, so it holds no line feed, carriage
    return or tab. *)
Theorem clean_review_text_only_rated (text : pystr) :
  clean_review_text text =
    if bool_decide (text = []) then []
    else strip (join (str " ") (split
           (replace (str "Rated ") (str " ") (join (str " ") (split text))))).
Proof.
  unfold clean_review_text. case_bool_decide; [done|].
  do 3 f_equal. unfold patterns_to_remove. cbn [fold_left].
  assert (Hchars := join_split_chars text).
  rewrite (replace_absent LF (str "RATED" ++ [LF])).
  2:{ apply elem_of_app. right. left. }
  2:{ by apply space_only_blank. }
  assert (Hchars' : Forall (λ c, c = " "%char ∨ isspace c = false)
            (replace (str "Rated ") (str " ") (join (str " ") (split text)))).
  { apply replace_from_chars; [done|]. constructor; [by left|constructor]. }
  rewrite (replace_absent LF [LF]); [|left|by apply space_only_blank].
  rewrite (replace_absent CR [CR]); [|left|by apply space_only_blank].
  rewrite (replace_absent TAB [TAB]); [|left|by apply space_only_blank].
  done.
Qed.

Lemma length_fold_replace (ps : list pystr) new s :
  Forall (λ p, p ≠ [] ∧ length new ≤ length p) ps →
  length (fold_left (λ text pattern, replace pattern new text) ps s) ≤ length s.
Proof.
  intros Hps. revert s.
  induction Hps as [|p ps [Hne Hlen] _ IH]; intros s; cbn [fold_left]; [done|].
  etrans; [apply IH|]. by apply length_replace.
Qed.

(** X3. [clean_review_text] never makes a text longer. *)
Theorem clean_review_text_length (text : pystr) :
  length (clean_review_text text) ≤ length text.
Proof.
  unfold clean_review_text. case_bool_decide; [cbn; lia|].
  etrans; [apply length_strip|].
  etrans; [apply length_join_split|].
  etrans; [apply length_fold_replace|apply length_join_split].
  unfold patterns_to_remove. repeat constructor; try done; cbn; lia.
Qed.

(** ** More on validation and deduplication *)

Section ValidateFacts.

Lemma isalpha_not_blank c :
  isalpha c = true → c ≠ " "%char ∧ c ≠ LF ∧ c ≠ TAB.
Proof. intros Hc. split_and!; intros ->; by vm_compute in Hc. Qed.

Lemma validate_reviews_filter (h : store) R min_length :
  validate_reviews h R min_length
  = filter (λ r, passes_validation min_length (h r) = true) R.
Proof.
  induction R as [|r R IH]; [done|]. cbn [validate_reviews].
  rewrite filter_cons, IH.
  destruct (passes_validation min_length (h r)); [by rewrite decide_True|].
  by rewrite decide_False.
Qed.

End ValidateFacts.

Lemma passes_validation_letter (min_length : Z) (d : review_dict) :
  (min_length ≤ Z.of_nat (length (review_text_of d)))%Z →
  existsb isalpha (review_text_of d) = true →
  passes_validation min_length d = true.
Proof.
  intros Hlen Halpha. unfold passes_validation.
  destruct (Z.ltb_spec (Z.of_nat (length (review_text_of d))) min_length); [lia|].
  rewrite Halpha. cbn [negb].
  apply existsb_exists in Halpha as (c & Hin%list_elem_of_In & Hc).
  destruct (isalpha_not_blank c Hc) as (Hsp & Hlf & Htab).
  rewrite bool_decide_eq_false_2; [done|].
  change (str " ") with [" "%char]. rewrite !replace_char_empty.
  intros Hnil.
  assert (Hc' : c ∈ filter (λ d, d ≠ TAB)
                  (filter (λ d, d ≠ LF)
                     (filter (λ d, d ≠ " "%char) (review_text_of d)))).
  { by repeat (apply list_elem_of_filter; split; [done|]). }
  rewrite Hnil in Hc'. by apply elem_of_nil in Hc'.
Qed.

Lemma passes_validation_mono (m m' : Z) (d : review_dict) :
  (m ≤ m')%Z →
  passes_validation m' d = true → passes_validation m d = true.
Proof.
  intros Hle (Hlen & _ & Ha)%passes_validation_spec.
  apply passes_validation_letter; [lia|done].
Qed.

(** X4. A review passes [validate_reviews] exactly when its trimmed text has
    at least [min_length] characters and holds a letter: the test for a text
    of blanks, line feeds and tabs never decides. *)
Theorem passes_validation_iff (min_length : Z) (d : review_dict) :
  passes_validation min_length d = true
  ↔ (min_length ≤ Z.of_nat (length (review_text_of d)))%Z
    ∧ existsb isalpha (review_text_of d) = true.
Proof.
  split.
  - intros H. apply passes_validation_spec in H. tauto.
  - intros [Hlen Halpha]. by apply passes_validation_letter.
Qed.

(** X5. Validating with a minimum and then with a larger one gives what
    validating with the larger one gives; in particular validating twice
    with the same minimum changes nothing. *)
Theorem validate_reviews_twice (h : store) (R : list ref) (m m' : Z) :
  (m ≤ m')%Z →
  validate_reviews h (validate_reviews h R m) m' = validate_reviews h R m'.
Proof.
  intros Hle. rewrite !validate_reviews_filter.
  induction R as [|r R IH]; [done|].
  rewrite !filter_cons.
  destruct (decide (passes_validation m' (h r) = true)) as [H'|H'].
  - assert (H : passes_validation m (h r) = true)
      by (by eapply passes_validation_mono).
    rewrite decide_True by done. rewrite filter_cons, decide_True by done.
    by rewrite IH.
  - destruct (decide (passes_validation m (h r) = true)); [|done].
    rewrite filter_cons, decide_False by done. done.
Qed.

Lemma validate_reviews_twice_witness :
  validate_reviews test_reviews (validate_reviews test_reviews [0; 1; 2; 3] 10) 25
  = validate_reviews test_reviews [0; 1; 2; 3] 25.
Proof. apply validate_reviews_twice. lia. Defined.

Section DedupFacts.

Lemma dedup_loop_out reviews : ∀ (h : store) seen unique,
  ∃ kept,
    (dedup_loop reviews h seen unique).2 = unique ++ kept
    ∧ kept `sublist_of` reviews.
Proof.
  induction reviews as [|r0 rest IH]; intros h seen unique.
  { exists []. by rewrite app_nil_r. }
  rewrite dedup_loop_unfold. destruct (_ && _).
  - destruct (IH (<[r0 := set_review (h r0)
                      (clean_review_text (review_text_of (h r0)))]> h)
                ({[review_text_of (h r0)]} ∪ seen) (unique ++ [r0]))
      as (kept & -> & Hsub).
    exists (r0 :: kept). rewrite <- app_assoc. split; [done|].
    by apply sublist_skip.
  - destruct (IH h seen unique) as (kept & -> & Hsub).
    exists kept. split; [done|]. by apply sublist_cons.
Qed.

(** The loop changes the text of reviews and nothing else, and only of
    reviews of the list. *)
Lemma dedup_loop_frame reviews : ∀ (h : store) seen unique r,
  restaurant_url ((dedup_loop reviews h seen unique).1 r) = restaurant_url (h r)
  ∧ page ((dedup_loop reviews h seen unique).1 r) = page (h r)
  ∧ scraped_at ((dedup_loop reviews h seen unique).1 r) = scraped_at (h r)
  ∧ (r ∉ reviews → (dedup_loop reviews h seen unique).1 r = h r).
Proof.
  induction reviews as [|r0 rest IH]; intros h seen unique r; [done|].
  rewrite dedup_loop_unfold. destruct (_ && _).
  - set (h1 := <[r0 := _]> h).
    destruct (IH h1 ({[review_text_of (h r0)]} ∪ seen) (unique ++ [r0]) r)
      as (Hu & Hp & Hs & Hout).
    rewrite Hu, Hp, Hs. unfold h1 in *. clear h1.
    destruct (decide (r0 = r)) as [->|Hne].
    + rewrite fn_lookup_insert. split_and!; try done.
      intros Hnot. exfalso. apply Hnot. left.
    + rewrite fn_lookup_insert_ne by done. split_and!; try done.
      intros Hnot. apply not_elem_of_cons in Hnot as [_ Hnot].
      rewrite Hout by done. by rewrite fn_lookup_insert_ne.
  - destruct (IH h seen unique r) as (Hu & Hp & Hs & Hout).
    split_and!; try done.
    intros Hnot. apply not_elem_of_cons in Hnot as [_ Hnot]. by apply Hout.
Qed.

(** Which reviews of a list of distinct objects the loop keeps. *)
Lemma dedup_loop_member reviews : ∀ (h : store) seen unique pre r post,
  NoDup reviews →
  reviews = pre ++ r :: post →
  r ∉ unique →
  ((r ∈ (dedup_loop reviews h seen unique).2)
   ↔ review_text_of (h r) ≠ []
     ∧ (review_text_of (h r) ∉ seen)
     ∧ (review_text_of (h r) ∉ trimmed_texts h pre)).
Proof.
  induction reviews as [|r0 rest IH]; intros h seen unique pre r post Hnd Heq Hnot.
  { by destruct pre. }
  apply NoDup_cons in Hnd as [Hr0 Hnd].
  rewrite dedup_loop_unfold.
  destruct pre as [|p0 pre]; injection Heq as -> ->.
  - (* the review at hand is the first of the list *)
    cbn [trimmed_texts map].
    destruct (negb _ && _) eqn:Hkeep.
    + apply andb_true_iff in Hkeep as [Hne Hnew].
      apply negb_true_iff, bool_decide_eq_false in Hne.
      apply bool_decide_eq_true in Hnew.
      destruct (dedup_loop_out post
                  (<[r := set_review (h r)
                        (clean_review_text (review_text_of (h r)))]> h)
                  ({[review_text_of (h r)]} ∪ seen) (unique ++ [r]))
        as (kept & -> & _).
      split; [intros _; split_and!; [done|done|apply not_elem_of_nil]|].
      intros _. apply elem_of_app. left. apply elem_of_app. right. left.
    + destruct (dedup_loop_out post h seen unique) as (kept & -> & Hsub).
      split.
      * intros [?|Hin]%elem_of_app; [done|].
        exfalso. apply Hr0. by apply (sublist_subseteq _ _ Hsub).
      * intros (Hne & Hnew & _). exfalso.
        apply andb_false_iff in Hkeep as [Hk|Hk].
        -- apply negb_false_iff, bool_decide_eq_true in Hk. done.
        -- apply bool_decide_eq_false in Hk. done.
  - (* the review at hand comes later *)
    assert (Hne0 : p0 ≠ r).
    { intros ->. apply Hr0. apply elem_of_app. right. left. }
    assert (Hagree : ∀ (t : review_dict) x, x ∈ pre ++ r :: post →
                       (<[p0 := t]> h) x = h x).
    { intros t x Hx. apply fn_lookup_insert_ne. by intros ->. }
    cbn [trimmed_texts map]. rewrite not_elem_of_cons.
    destruct (negb _ && _) eqn:Hkeep.
    + apply andb_true_iff in Hkeep as [Hne Hnew].
      apply negb_true_iff, bool_decide_eq_false in Hne.
      apply bool_decide_eq_true in Hnew.
      rewrite (IH _ _ _ pre r post Hnd eq_refl).
      2:{ rewrite elem_of_app, list_elem_of_singleton. intros [?|?]; [done|by subst]. }
      rewrite Hagree by (apply elem_of_app; right; left).
      assert (Hmap : trimmed_texts (<[p0 := set_review (h p0)
                        (clean_review_text (review_text_of (h p0)))]> h) pre
                     = trimmed_texts h pre).
      { apply map_ext_in. intros x Hx%list_elem_of_In.
        rewrite Hagree; [done|]. apply elem_of_app. by left. }
      rewrite Hmap. rewrite not_elem_of_union, not_elem_of_singleton.
      tauto.
    + rewrite (IH _ _ _ pre r post Hnd eq_refl Hnot).
      split; [|tauto].
      intros (Hne & Hnew & Hpre). split_and!; try done.
      intros Heq. rewrite Heq in *.
      apply andb_false_iff in Hkeep as [Hk|Hk].
      * apply negb_false_iff, bool_decide_eq_true in Hk. done.
      * apply bool_decide_eq_false in Hk. done.
Qed.

End DedupFacts.

(** X6. In a list of distinct review objects, [deduplicate_reviews] keeps a
    review exactly when its trimmed text is not empty and no earlier review
    of the list has the same trimmed text: the first occurrence stays, the
    later ones go. *)
Theorem deduplicate_keeps_first (h : store) (pre : list ref) (r : ref)
    (post : list ref) :
  NoDup (pre ++ r :: post) →
  ((r ∈ (deduplicate_reviews h (pre ++ r :: post)).2)
   ↔ review_text_of (h r) ≠ [] ∧ review_text_of (h r) ∉ trimmed_texts h pre).
Proof.
  intros Hnd. unfold deduplicate_reviews.
  rewrite (dedup_loop_member _ h ∅ [] pre r post Hnd eq_refl);
    [|apply not_elem_of_nil].
  split; [tauto|]. intros [Hne Hpre].
  split_and!; [done|apply not_elem_of_empty|done].
Qed.

Lemma deduplicate_keeps_first_witness :
  NoDup ([0; 1; 2] ++ 3 :: [])
  ∧ ¬ (3 ∈ (deduplicate_reviews test_reviews ([0; 1; 2] ++ 3 :: [])).2).
Proof.
  assert (Hnd : NoDup ([0; 1; 2] ++ 3 :: []))
    by (apply (bool_decide_unpack _); vm_compute; exact I).
  split; [exact Hnd|].
  intros Hin.
  apply (proj1 (deduplicate_keeps_first test_reviews [0; 1; 2] 3 [] Hnd)) in Hin
    as [_ Hnew].
  apply Hnew. vm_compute. left.
Defined.

(** X7. [deduplicate_reviews] returns reviews of its input in their order,
    changes no key of a review but ['review'], and leaves the reviews that
    are not in the list as they are; this holds also when the list holds a
    review object more than once. *)
Theorem deduplicate_frame (h : store) (reviews : list ref) :
  (deduplicate_reviews h reviews).2 `sublist_of` reviews
  ∧ ∀ r,
      restaurant_url ((deduplicate_reviews h reviews).1 r) = restaurant_url (h r)
      ∧ page ((deduplicate_reviews h reviews).1 r) = page (h r)
      ∧ scraped_at ((deduplicate_reviews h reviews).1 r) = scraped_at (h r)
      ∧ (r ∉ reviews → (deduplicate_reviews h reviews).1 r = h r).
Proof.
  unfold deduplicate_reviews. split.
  - by destruct (dedup_loop_out reviews h ∅ []) as (kept & -> & Hsub).
  - intros r. apply dedup_loop_frame.
Qed.

Lemma deduplicate_frame_witness :
  (deduplicate_reviews test_reviews [0; 1]).1 7 = test_reviews 7.
Proof.
  apply (proj2 (deduplicate_frame test_reviews [0; 1]) 7).
  vm_compute. intros Hin. by repeat (apply elem_of_cons in Hin as [?|Hin]; [done|]);
    apply elem_of_nil in Hin.
Defined.

(** ** More on the checkpoint store *)

Section CheckpointMore.

Import CheckpointManager.

Variable removable : pystr → bool.



Lemma obj_get_absent kv key default :
  Forall (λ p, p.1 ≠ key) kv → obj_get kv key default = default.
Proof.
  induction 1 as [|[k v] kv Hk _ IH]; [done|]. cbn [obj_get].
  by rewrite bool_decide_eq_false_2.
Qed.

Lemma obj_get_found pre key v post default :
  Forall (λ p, p.1 ≠ key) pre →
  obj_get (pre ++ (key, v) :: post) key default = v.
Proof.
  induction 1 as [|[k v'] pre Hk _ IH]; cbn [app obj_get].
  - by rewrite bool_decide_eq_true_2.
  - by rewrite bool_decide_eq_false_2.
Qed.

End CheckpointMore.



(** X9. A checkpoint written by an older or newer version still loads: an
    object without the key ['processed_urls'] gives the empty list, and an
    object with the key gives its list whatever other keys stand before or
    after it. *)
Theorem load_checkpoint_forward_compatible (file : pystr) (w : world)
    (kv : list (pystr * json)) :
  files w !! file = Some (JsonDoc (JObj kv)) →
  (Forall (λ p, p.1 ≠ str "processed_urls") kv →
   CheckpointManager.load_checkpoint file w = (Ok (JList []), w))
  ∧ (∀ pre l post,
       kv = pre ++ (str "processed_urls", JList l) :: post →
       Forall (λ p, p.1 ≠ str "processed_urls") pre →
       CheckpointManager.load_checkpoint file w = (Ok (JList l), w)).
Proof.
  intros Hfile. rewrite (load_checkpoint_present file w _ Hfile). split.
  - intros Hno. by rewrite obj_get_absent.
  - intros pre l post -> Hpre. by rewrite obj_get_found.
Qed.

Lemma load_checkpoint_forward_compatible_witness :
  CheckpointManager.load_checkpoint CHECKPOINT_FILE versioned_world
  = (Ok (JList [JStr (str "u")]), versioned_world).
Proof.
  assert (Hfile : files versioned_world !! CHECKPOINT_FILE
                  = Some (JsonDoc (JObj [ (str "version", JInt 2);
                       (str "processed_urls", JList [JStr (str "u")]) ])))
    by (by vm_compute).
  apply (proj2 (load_checkpoint_forward_compatible CHECKPOINT_FILE
                  versioned_world _ Hfile)
           [(str "version", JInt 2)] [JStr (str "u")] []).
  - reflexivity.
  - constructor; [|constructor]. vm_compute. discriminate.
Defined.

Lemma last_map {A B} (f : A → B) (l : list A) :
  last (map f l) = f <$> last l.
Proof.
  induction l as [|x l IH]; [done|].
  destruct l as [|y l]; [done|]. exact IH.
Qed.

(** X10. [save_checkpoint] with a list of identifiers never raises, reads the
    clock once, and writes the checkpoint file only: the file then holds the
    number of reviews, the time read and the last identifier ([null] for an
    empty list), and every other file and the log of requests are as
    before. *)
Theorem save_checkpoint_effects
    (clock : nat → pystr) (file : pystr) (ids : list pystr)
    (all_reviews : list review_dict) (w : world) :
  ∃ kv,
    CheckpointManager.save_checkpoint clock file (JList (map JStr ids)) all_reviews w
    = (Ok tt, set_files (<[file := JsonDoc (JObj kv)]> (files w)) (add_tick w))
    ∧ obj_get kv (str "total_reviews") JNull = JInt (Z.of_nat (length all_reviews))
    ∧ obj_get kv (str "timestamp") JNull = JStr (clock (ticks w))
    ∧ obj_get kv (str "last_processed") (JInt 0)
      = from_option JStr JNull (last ids).
Proof.
  exists [ (str "processed_urls", JList (map JStr ids));
           (str "total_reviews", JInt (Z.of_nat (length all_reviews)));
           (str "timestamp", JStr (clock (ticks w)));
           (str "last_processed", from_option JStr JNull (last ids)) ].
  split; [|split_and!; reflexivity].
  unfold CheckpointManager.save_checkpoint, bind,
    CheckpointManager.datetime_now_isoformat, bind, get, modify, ret,
    CheckpointManager.json_dump, modify, of_result.
  destruct ids as [|i ids]; [reflexivity|].
  set (l := i :: ids).
  assert (Hlast : ∃ y, last l = Some y).
  { destruct (last l) eqn:E; [eauto|]. by apply last_None in E. }
  destruct Hlast as [y Hy].
  cbn [truthy py_last py_len]. rewrite last_map, Hy.
  rewrite bool_decide_eq_false_2 by (by rewrite length_map).
  reflexivity.
Qed.

(** ** More on the content extractor and the page crawler *)

Section TrimFacts.

Implicit Types (s t : pystr) (c : ascii).

Lemma lstrip_nil_or_head s :
  lstrip s = [] ∨ ∃ c r, lstrip s = c :: r ∧ isspace c = false.
Proof.
  induction s as [|c s IH]; [by left|]. cbn [lstrip].
  destruct (isspace c) eqn:Hc; [done|]. right. eauto.
Qed.

Lemma rstrip_head c s :
  isspace c = false → ∃ r, rstrip (c :: s) = c :: r.
Proof.
  intros Hc. cbn [rstrip]. destruct (rstrip s); [|eauto].
  rewrite Hc. eauto.
Qed.

(** A stripped text is empty, or begins and ends with characters that are
    not whitespace. *)
Lemma strip_shape s :
  strip s = [] ∨
  ((∃ c r, strip s = c :: r ∧ isspace c = false) ∧ ends_nonspace (strip s)).
Proof.
  unfold strip.
  destruct (lstrip_nil_or_head s) as [->|(c & r & -> & Hc)]; [by left|].
  right. destruct (rstrip_head c r Hc) as [r' Hr].
  split; [rewrite Hr; eauto|].
  destruct (rstrip_nil_or_ends (c :: r)) as [Hnil|?]; [|done].
  by rewrite Hr in Hnil.
Qed.

Lemma shape_strip s :
  s = [] ∨ ((∃ c r, s = c :: r ∧ isspace c = false) ∧ ends_nonspace s) →
  strip s = s.
Proof.
  intros [->|[(c & r & -> & Hc) Hend]]; [done|].
  unfold strip. rewrite lstrip_nonspace by done. by apply rstrip_ends_id.
Qed.

Lemma shape_app s t :
  s = [] ∨ ((∃ c r, s = c :: r ∧ isspace c = false) ∧ ends_nonspace s) →
  t = [] ∨ ((∃ c r, t = c :: r ∧ isspace c = false) ∧ ends_nonspace t) →
  s ++ t = [] ∨
  ((∃ c r, s ++ t = c :: r ∧ isspace c = false) ∧ ends_nonspace (s ++ t)).
Proof.
  intros [->|[(c & r & -> & Hc) Hs]] Ht; [done|].
  right. split; [cbn [app]; eauto|].
  destruct Ht as [->|[_ Ht]]; [by rewrite app_nil_r|].
  by apply ends_nonspace_app.
Qed.

Lemma get_text_strip_trimmed (block : list pystr) :
  strip (get_text_strip block) = get_text_strip block.
Proof.
  apply shape_strip. unfold get_text_strip.
  induction block as [|s block IH]; [by left|].
  cbn [map concat]. apply shape_app; [apply strip_shape|apply IH].
Qed.

Lemma kept_texts_spec min_length (blocks : list (list pystr)) :
  Forall (λ t, min_length < length t ∧ strip t = t)
         (kept_texts min_length blocks).
Proof.
  unfold kept_texts. apply Forall_forall.
  intros t [[_ Hlen] Hin]%list_elem_of_filter. split; [done|].
  apply list_elem_of_In, in_map_iff in Hin as (block & <- & _).
  apply get_text_strip_trimmed.
Qed.

Lemma first_match_none soup selectors :
  Forall (no_match soup) selectors →
  first_match soup selectors = (selectors, []).
Proof.
  induction 1 as [|s selectors Hs _ IH]; [done|].
  cbn [first_match]. rewrite IH. by destruct Hs as [->|[e ->]].
Qed.

End TrimFacts.

(** X11. [_get_review_url] strips one trailing slash and appends ["/reviews"],
    so an identifier gives the same review URL with and without the slash. *)
Theorem get_review_url_trailing_slash (u : pystr) :
  _get_review_url (u ++ str "/") = u ++ str "/reviews"
  ∧ (endswith (str "/") u = false → _get_review_url u = u ++ str "/reviews").
Proof.
  unfold _get_review_url. split.
  - assert (endswith (str "/") (u ++ str "/") = true) as ->.
    { unfold endswith. rewrite rev_app_distr. reflexivity. }
    change (str "/") with ["/"%char]. by rewrite removelast_last.
  - by intros ->.
Qed.

Lemma get_review_url_trailing_slash_witness :
  endswith (str "/") (str "https://site.example/city/place-name") = false
  ∧ _get_review_url (str "https://site.example/city/place-name")
    = str "https://site.example/city/place-name" ++ str "/reviews".
Proof.
  split; [reflexivity|].
  apply (proj2 (get_review_url_trailing_slash
                  (str "https://site.example/city/place-name"))).
  reflexivity.
Defined.

(** X12. When no selector of the list matches an element, because it finds
    nothing or because [soup.select] raises on it, [_extract_reviews] does
    not raise: it returns the empty list after one call of [soup.select]
    for each selector, in the order of the list. *)
Theorem extract_nothing_matches
    (soup : BeautifulSoup) (selectors : list pystr) (min_length : nat)
    (w : world) :
  Forall (no_match soup) selectors →
  extract_with selectors min_length soup w = (Ok [], log_selects selectors w).
Proof.
  intros Hnone. rewrite extract_with_eq. by rewrite first_match_none.
Qed.

Lemma extract_nothing_matches_witness :
  _extract_reviews (λ _, Raise OtherException) empty_world
  = (Ok [], log_selects REVIEW_SELECTORS empty_world).
Proof.
  apply (extract_nothing_matches (λ _, Raise OtherException) REVIEW_SELECTORS
           MIN_REVIEW_LENGTH empty_world).
  apply Forall_forall. intros s _. right. by exists OtherException.
Defined.

(** X13. [_extract_reviews] never raises, and every text it returns is
    trimmed and has more than the minimum number of characters. *)
Theorem extract_texts_long_and_trimmed
    (soup : BeautifulSoup) (selectors : list pystr) (min_length : nat)
    (w : world) :
  ∃ texts,
    (extract_with selectors min_length soup w).1 = Ok texts
    ∧ Forall (λ t, min_length < length t ∧ strip t = t) texts.
Proof.
  rewrite extract_with_eq. eexists. split; [reflexivity|].
  apply kept_texts_spec.
Qed.

Section CrawlMore.

Variable web : pystr → result response.
Variable clock : nat → pystr.

(** What one turn of the page loop does to the world and to the list. *)
Lemma scrape_page_effects u p w acc :
  ∃ c w' new,
    scrape_page web clock u (_get_review_url u) p (w, acc)
    = (Ok c, (w', acc ++ new))
    ∧ (c = Break → new = [])
    ∧ requests w' = requests w ++ [page_url u p]
    ∧ sleeps w' = S (sleeps w)
    ∧ ticks w' = ticks w + length new
    ∧ files w' = files w.
Proof.
  rewrite scrape_page_eq.
  generalize (page_url u p) as url. intros url.
  assert (Hstop : ∀ w1 : world,
    requests w1 = requests w ++ [url] → sleeps w1 = S (sleeps w) →
    ticks w1 = ticks w → files w1 = files w →
    ∃ c w' new,
      (Ok Break, (w1, acc)) = (Ok c, (w', acc ++ new))
      ∧ (c = Break → new = [])
      ∧ requests w' = requests w ++ [url]
      ∧ sleeps w' = S (sleeps w)
      ∧ ticks w' = ticks w + length new
      ∧ files w' = files w).
  { intros w1 Hr Hs Ht Hf. exists Break, w1, [].
    rewrite app_nil_r, Nat.add_0_r. by split_and!. }
  destruct (web url) as [resp|e]; [|by apply Hstop].
  destruct (negb _); [by apply Hstop|].
  destruct (parsed resp) as [soup|e]; [|by apply Hstop].
  generalize (first_match soup REVIEW_SELECTORS).1 as sels.
  generalize (extracted soup) as found. intros found sels.
  case_bool_decide; [by apply Hstop|].
  eexists Continue, _, _. split; [reflexivity|].
  split_and!; [discriminate|reflexivity|reflexivity| |reflexivity].
  rewrite length_stamp. reflexivity.
Qed.

Lemma page_loop_effects u ps : ∀ w acc,
  ∃ n w' new,
    for_each (scrape_page web clock u (_get_review_url u)) ps (w, acc)
    = (Ok tt, (w', acc ++ new))
    ∧ n ≤ length ps
    ∧ requests w' = requests w ++ map (page_url u) (take n ps)
    ∧ sleeps w' = sleeps w + n
    ∧ ticks w' = ticks w + length new
    ∧ files w' = files w.
Proof.
  induction ps as [|p ps IH]; intros w acc.
  - exists 0, w, []. cbn [for_each take map length]. unfold ret.
    rewrite !app_nil_r, !Nat.add_0_r. by split_and!.
  - destruct (scrape_page_effects u p w acc)
      as (c & w1 & new1 & Heq & Hbreak & Hreq & Hsl & Htk & Hf).
    cbn [for_each]. unfold bind at 1. rewrite Heq.
    destruct c.
    + destruct (IH w1 (acc ++ new1))
        as (n & w' & new & -> & Hn & Hreq' & Hsl' & Htk' & Hf').
      exists (S n), w', (new1 ++ new). rewrite app_assoc.
      split_and!; [done|cbn [length]; lia| |lia| |congruence].
      * rewrite Hreq', Hreq. cbn [take map]. by rewrite <- app_assoc.
      * rewrite length_app. lia.
    + exists 1, w1, new1. unfold ret.
      split_and!; [done|cbn [length]; lia| |lia|done|done].
      rewrite Hreq. cbn [take map]. by rewrite take_0.
Qed.

Lemma stamp_elem u p texts : ∀ t0 r,
  r ∈ stamp clock u p t0 texts →
  restaurant_url r = u ∧ page r = p ∧ ∃ t, review r = Some t ∧ t ∈ texts.
Proof.
  induction texts as [|t texts IH]; intros t0 r Hin.
  - by apply elem_of_nil in Hin.
  - cbn [stamp] in Hin. apply elem_of_cons in Hin as [->|Hin].
    + split_and!; [done..|]. exists t. split; [done|left].
    + destruct (IH _ _ Hin) as (? & ? & t' & ? & ?).
      split_and!; [done..|]. exists t'. split; [done|by right].
Qed.

Lemma pages_records_elem u ps : ∀ t0 r,
  r ∈ pages_records web clock u ps t0 →
  restaurant_url r = u ∧ page r ∈ ps
  ∧ ∃ t, review r = Some t ∧ t ∈ page_reviews_of web (page_url u (page r)).
Proof.
  induction ps as [|p ps IH]; intros t0 r Hin.
  - by apply elem_of_nil in Hin.
  - cbn [pages_records] in Hin. apply elem_of_app in Hin as [Hin|Hin].
    + apply stamp_elem in Hin as (? & -> & t & ? & ?).
      split_and!; [done|left|eauto].
    + destruct (IH _ _ Hin) as (? & ? & ?). split_and!; [done|by right|done].
Qed.

Lemma page_reviews_of_spec url :
  Forall (λ t, MIN_REVIEW_LENGTH < length t ∧ strip t = t)
         (page_reviews_of web url).
Proof.
  unfold page_reviews_of.
  destruct (web url) as [resp|e]; [|constructor].
  destruct (_ =? _)%Z; [|constructor].
  destruct (parsed resp) as [soup|e]; [|constructor].
  apply kept_texts_spec.
Qed.

End CrawlMore.

(** X14. One crawl requests pages 1, 2, ... of the identifier in this order
    and stops after [MAX_PAGES] pages at the latest; it sleeps once before
    each request, reads the clock once for each record it returns, and
    writes no file. *)
Theorem crawl_effects
    (web : pystr → result response) (clock : nat → pystr)
    (u : pystr) (w : world) :
  ∃ recs w' n,
    _scrape_restaurant_reviews web clock u w = (Ok recs, w')
    ∧ n ≤ MAX_PAGES
    ∧ requests w' = requests w ++ map (page_url u) (seq 1 n)
    ∧ sleeps w' = sleeps w + n
    ∧ ticks w' = ticks w + length recs
    ∧ files w' = files w.
Proof.
  destruct (page_loop_effects web clock u (seq 1 MAX_PAGES) w [])
    as (n & w' & new & Heq & Hn & Hreq & Hsl & Htk & Hf).
  rewrite length_seq in Hn.
  exists new, w', n.
  unfold _scrape_restaurant_reviews, bind, with_local, try_except.
  rewrite Heq. split_and!; [done|done| |done..].
  rewrite Hreq, take_seq. do 3 f_equal. lia.
Qed.

(** X15. Every record a crawl returns carries the identifier crawled and a
    page number between 1 and [MAX_PAGES], and holds a text that is trimmed
    and has more than [MIN_REVIEW_LENGTH] characters. *)
Theorem crawl_records_wellformed
    (web : pystr → result response) (clock : nat → pystr)
    (u : pystr) (w : world) :
  ∃ recs w',
    _scrape_restaurant_reviews web clock u w = (Ok recs, w')
    ∧ Forall (λ r, restaurant_url r = u
                   ∧ 1 ≤ page r ≤ MAX_PAGES
                   ∧ ∃ t, review r = Some t
                          ∧ MIN_REVIEW_LENGTH < length t
                          ∧ review_text_of r = t) recs.
Proof.
  destruct (good_prefix web u (seq 1 MAX_PAGES))
    as (pre & post & Hsplit & Hgood & Hstop).
  destruct (crawl_split web clock u pre post w Hsplit Hgood Hstop)
    as (w' & Heq & _).
  eexists _, w'. split; [exact Heq|].
  apply Forall_forall. intros r Hin.
  apply pages_records_elem in Hin as (Hu & Hp & t & Ht & Hin).
  assert (Hp' : page r ∈ seq 1 MAX_PAGES).
  { rewrite Hsplit. apply elem_of_app. by left. }
  apply elem_of_seq in Hp'.
  pose proof (page_reviews_of_spec web (page_url u (page r))) as Hall.
  rewrite Forall_forall in Hall. destruct (Hall t Hin) as [Hlen Htrim].
  split_and!; [done|lia|lia|].
  exists t. split_and!; [done|done|].
  unfold review_text_of. by rewrite Ht.
Qed.

(** ** More on the orchestrator *)

Lemma existsb_str_eq_map u (ids : list pystr) :
  existsb (str_eq u) (map JStr ids) = bool_decide (u ∈ ids).
Proof.
  induction ids as [|x ids IH]; [done|].
  cbn [map existsb str_eq]. rewrite IH.
  destruct (decide (x = u)) as [->|Hne].
  - rewrite (bool_decide_eq_true_2 (u = u)) by done.
    symmetry. apply bool_decide_eq_true_2. left.
  - rewrite (bool_decide_eq_false_2 (x = u)) by done. cbn [orb].
    apply bool_decide_ext. rewrite elem_of_cons.
    split; [by right|]. intros [Hx|Hx]; [by subst|done].
Qed.

Lemma new_identifiers_spec urls : ∀ ids,
  NoDup (new_identifiers ids urls)
  ∧ new_identifiers ids urls `sublist_of` urls
  ∧ ∀ x, x ∈ new_identifiers ids urls ↔ x ∈ urls ∧ x ∉ ids.
Proof.
  induction urls as [|u urls IH]; intros ids; cbn [new_identifiers].
  - split_and!; [constructor|done|]. intros x. rewrite !elem_of_nil. tauto.
  - case_bool_decide as Hin.
    + destruct (IH ids) as (Hnd & Hsub & Hel).
      split_and!; [done|by apply sublist_cons|].
      intros x. rewrite Hel, elem_of_cons.
      split; [tauto|]. intros [[Hx|Hx] Hni]; [by subst|done].
    + destruct (IH (ids ++ [u])) as (Hnd & Hsub & Hel).
      split_and!.
      * apply NoDup_cons. split; [|done].
        rewrite Hel, elem_of_app, list_elem_of_singleton. tauto.
      * by apply sublist_skip.
      * intros x. rewrite !elem_of_cons, Hel, elem_of_app,
          list_elem_of_singleton.
        destruct (decide (x = u)) as [->|]; tauto.
Qed.

Lemma new_identifiers_none urls : ∀ ids,
  (∀ u, u ∈ urls → u ∈ ids) → new_identifiers ids urls = [].
Proof.
  induction urls as [|u urls IH]; intros ids Hall; [done|].
  cbn [new_identifiers]. rewrite bool_decide_eq_true_2.
  - apply IH. intros x Hx. apply Hall. by right.
  - apply Hall. left.
Qed.

Section RunFacts.

Variable web : pystr → result response.
Variable clock : nat → pystr.

(** The crawl of one identifier: its result, its requests and its
    records. *)
Lemma crawl_summary u w :
  ∃ recs w1 n,
    _scrape_restaurant_reviews web clock u w = (Ok recs, w1)
    ∧ n ≤ MAX_PAGES
    ∧ requests w1 = requests w ++ map (page_url u) (seq 1 n)
    ∧ files w1 = files w
    ∧ Forall (λ r, restaurant_url r = u ∧ wellformed r) recs.
Proof.
  destruct (page_loop_effects web clock u (seq 1 MAX_PAGES) w [])
    as (n & w1 & recs & Heq & Hn & Hreq & _ & _ & Hf).
  rewrite length_seq in Hn.
  assert (Hcrawl : _scrape_restaurant_reviews web clock u w = (Ok recs, w1)).
  { unfold _scrape_restaurant_reviews, bind, with_local, try_except.
    by rewrite Heq. }
  exists recs, w1, n. split_and!; [done|done| |done|].
  { rewrite Hreq, take_seq. do 3 f_equal. lia. }
  destruct (good_prefix web u (seq 1 MAX_PAGES))
    as (pre & post & Hsplit & Hgood & Hstop).
  destruct (crawl_split web clock u pre post w Hsplit Hgood Hstop)
    as (w' & Heq' & _).
  rewrite Hcrawl in Heq'. injection Heq' as -> _.
  apply Forall_forall. intros r Hin.
  apply pages_records_elem in Hin as (Hu & Hp & t & Ht & Hin).
  assert (Hp' : page r ∈ seq 1 MAX_PAGES).
  { rewrite Hsplit. apply elem_of_app. by left. }
  apply elem_of_seq in Hp'.
  pose proof (page_reviews_of_spec web (page_url u (page r))) as Hall.
  rewrite Forall_forall in Hall. destruct (Hall t Hin) as [Hlen Htrim].
  split; [done|]. split; [lia|].
  exists t. split_and!; [done|done|].
  unfold review_text_of. by rewrite Ht.
Qed.

(** The world that a turn for a new identifier leaves, from the world
    [w1] that its crawl leaves. *)
Lemma process_url_new_world i u all l w recs w1 :
  _scrape_restaurant_reviews web clock u w = (Ok recs, w1) →
  existsb (str_eq u) l = false →
  process_url web clock i u (all, JList l) w =
    (Ok (all ++ recs, JList (l ++ [JStr u])),
     if (i + 1) mod CHUNK_SIZE =? 0 then
       if negb (bool_decide (all ++ recs = [])) then
         set_files
           (<[temp_file := CsvRows (all ++ recs)]>
              (files (CheckpointManager.save_checkpoint clock CHECKPOINT_FILE
                        (JList (l ++ [JStr u])) (all ++ recs) w1).2))
           (CheckpointManager.save_checkpoint clock CHECKPOINT_FILE
              (JList (l ++ [JStr u])) (all ++ recs) w1).2
       else
         (CheckpointManager.save_checkpoint clock CHECKPOINT_FILE
            (JList (l ++ [JStr u])) (all ++ recs) w1).2
     else w1).
Proof.
  intros Heq Hin.
  unfold process_url, bind at 1, of_result at 1. cbn [py_in]. rewrite Hin.
  unfold bind at 1. rewrite Heq.
  unfold bind at 1, of_result at 1. cbn [py_append].
  destruct (_ =? _); [|reflexivity].
  unfold bind at 1.
  destruct (save_checkpoint_list clock CHECKPOINT_FILE (l ++ [JStr u])
              (all ++ recs) w1) as (lp & ->).
  unfold bind at 1. by destruct (negb _).
Qed.

Lemma save_checkpoint_requests file (l : list json) revs w :
  requests (CheckpointManager.save_checkpoint clock file (JList l) revs w).2
  = requests w.
Proof.
  by destruct (save_checkpoint_list clock file l revs w) as (lp & ->).
Qed.

Lemma process_url_new_requests i u all l w recs w1 w' r :
  _scrape_restaurant_reviews web clock u w = (Ok recs, w1) →
  existsb (str_eq u) l = false →
  process_url web clock i u (all, JList l) w = (r, w') →
  requests w' = requests w1.
Proof.
  intros Heq Hin. rewrite (process_url_new_world _ _ _ _ _ _ _ Heq Hin).
  intros [= _ <-].
  destruct (_ =? _); [|done].
  destruct (negb _); cbn [requests set_files];
    apply save_checkpoint_requests.
Qed.

(** The loop over [urls], from a processed list that holds the identifiers
    [ids]. *)
Lemma scrape_loop_run urls : ∀ i0 all ids w,
  ∃ all' reqs w',
    scrape_loop web clock (enumerate_from i0 urls) (all, JList (map JStr ids)) w
    = (Ok (all ++ all', JList (map JStr (ids ++ new_identifiers ids urls))), w')
    ∧ requests w' = requests w ++ reqs
    ∧ Forall (λ x, ∃ u p, u ∈ new_identifiers ids urls
                          ∧ 1 ≤ p ≤ MAX_PAGES ∧ x = page_url u p) reqs
    ∧ Forall (λ r, restaurant_url r ∈ new_identifiers ids urls
                   ∧ wellformed r) all'.
Proof.
  induction urls as [|u urls IH]; intros i0 all ids w.
  - exists [], [], w. cbn [enumerate_from scrape_loop new_identifiers].
    unfold ret. rewrite !app_nil_r. by split_and!.
  - cbn [enumerate_from scrape_loop new_identifiers]. unfold bind.
    case_bool_decide as Hin.
    + rewrite process_url_skip
        by (by rewrite existsb_str_eq_map, bool_decide_eq_true_2).
      apply IH.
    + assert (Hnew : existsb (str_eq u) (map JStr ids) = false)
        by (by rewrite existsb_str_eq_map, bool_decide_eq_false_2).
      destruct (crawl_summary u w) as (recs & w1 & n & Heq & Hn & Hreq & _ & Hrecs).
      destruct (process_url web clock i0 u (all, JList (map JStr ids)) w)
        as [r w2] eqn:Hstep.
      pose proof (process_url_new_requests _ _ _ _ _ _ _ _ _ Heq Hnew Hstep)
        as Hreq2.
      rewrite (process_url_new_world _ _ _ _ _ _ _ Heq Hnew) in Hstep.
      injection Hstep as <- Hw2.
      change (map JStr ids ++ [JStr u]) with (map JStr ids ++ map JStr [u]).
      rewrite <- map_app.
      destruct (IH (S i0) (all ++ recs) (ids ++ [u]) w2)
        as (all' & reqs & w' & -> & Hreq' & Hreqs & Hall).
      exists (recs ++ all'), (map (page_url u) (seq 1 n) ++ reqs), w'.
      split_and!.
      * by rewrite <- !app_assoc.
      * by rewrite Hreq', Hreq2, Hreq, <- app_assoc.
      * apply Forall_app. split.
        -- apply Forall_forall. intros x (p & -> & Hp%elem_of_seq)%list_elem_of_fmap.
           exists u, p. split_and!; [left|lia|lia|done].
        -- eapply Forall_impl; [exact Hreqs|].
           intros x (u' & p & ? & ? & ?). exists u', p.
           split; [by right|]. by split.
      * apply Forall_app. split.
        -- eapply Forall_impl; [exact Hrecs|].
           intros r' [-> ?]. split; [left|done].
        -- eapply Forall_impl; [exact Hall|].
           intros r' [? ?]. split; [by right|done].
Qed.

(** A whole run, from a checkpoint that holds the identifiers [ids]. *)
Lemma run_summary urls ids w :
  CheckpointManager.load_checkpoint CHECKPOINT_FILE w
  = (Ok (JList (map JStr ids)), w) →
  ∃ all reqs w',
    scrape_all_reviews web clock urls w = (Ok all, w')
    ∧ CheckpointManager.load_checkpoint CHECKPOINT_FILE w'
      = (Ok (JList (map JStr (ids ++ new_identifiers ids urls))), w')
    ∧ requests w' = requests w ++ reqs
    ∧ Forall (λ x, ∃ u p, u ∈ new_identifiers ids urls
                          ∧ 1 ≤ p ≤ MAX_PAGES ∧ x = page_url u p) reqs
    ∧ Forall (λ r, restaurant_url r ∈ new_identifiers ids urls
                   ∧ wellformed r) all
    ∧ ∃ kv, files w' !! CHECKPOINT_FILE = Some (JsonDoc (JObj kv))
            ∧ obj_get kv (str "total_reviews") JNull
              = JInt (Z.of_nat (length all)).
Proof.
  intros Hload.
  destruct (scrape_loop_run urls 0 [] ids w)
    as (all & reqs & w1 & Hloop & Hreq & Hreqs & Hall).
  cbn [app] in Hloop.
  destruct (save_checkpoint_list clock CHECKPOINT_FILE
              (map JStr (ids ++ new_identifiers ids urls)) all w1)
    as (lp & Hsave).
  eexists all, reqs, _. split_and!; [| |..|eexists; split].
  - unfold scrape_all_reviews, bind at 1. rewrite Hload.
    unfold bind at 1. rewrite Hloop. unfold bind. cbn [fst snd].
    rewrite Hsave. reflexivity.
  - erewrite load_checkpoint_present.
    2:{ cbn [files set_files]. apply lookup_insert_eq. }
    cbn [obj_get fst snd]. rewrite bool_decide_eq_true_2 by done.
    cbn [py_len]. reflexivity.
  - exact Hreq.
  - exact Hreqs.
  - exact Hall.
  - cbn [files set_files]. apply lookup_insert_eq.
  - reflexivity.
Qed.

End RunFacts.


(** X16. A run appends to the processed list of the checkpoint the identifiers
    of its input that the list does not hold, each once and in the order of
    the input, and leaves the result in the checkpoint file. *)
Theorem run_appends_new_identifiers
    (web : pystr → result response) (clock : nat → pystr)
    (urls ids : list pystr) (w : world) :
  CheckpointManager.load_checkpoint CHECKPOINT_FILE w
  = (Ok (JList (map JStr ids)), w) →
  CheckpointManager.load_checkpoint CHECKPOINT_FILE
    (scrape_all_reviews web clock urls w).2
  = (Ok (JList (map JStr (ids ++ new_identifiers ids urls))),
     (scrape_all_reviews web clock urls w).2)
  ∧ NoDup (new_identifiers ids urls)
  ∧ new_identifiers ids urls `sublist_of` urls
  ∧ (∀ x, x ∈ new_identifiers ids urls ↔ x ∈ urls ∧ x ∉ ids)
  ∧ (NoDup ids → NoDup (ids ++ new_identifiers ids urls)).
Proof.
  intros Hload.
  destruct (run_summary web clock urls ids w Hload)
    as (all & reqs & w' & -> & Hload' & _).
  destruct (new_identifiers_spec urls ids) as (Hnd & Hsub & Hel).
  split_and!; [done..|].
  intros Hids. apply NoDup_app. split_and!; [done| |done].
  intros x Hx Hx'. apply Hel in Hx'. tauto.
Qed.

Lemma run_appends_new_identifiers_witness :
  CheckpointManager.load_checkpoint CHECKPOINT_FILE
    (scrape_all_reviews sample_web sample_clock
       [sample_url; str "b"; sample_url; str "b"] resumed_world).2
  = (Ok (JList (map JStr ([sample_url]
           ++ new_identifiers [sample_url]
                [sample_url; str "b"; sample_url; str "b"]))),
     (scrape_all_reviews sample_web sample_clock
        [sample_url; str "b"; sample_url; str "b"] resumed_world).2).
Proof.
  apply (run_appends_new_identifiers sample_web sample_clock
           [sample_url; str "b"; sample_url; str "b"] [sample_url]
           resumed_world).
  by vm_compute.
Defined.

(** X17. A run only requests pages of identifiers of its input that the
    checkpoint does not hold: every request it adds to the log is page 1 to
    [MAX_PAGES] of such an identifier. *)
Theorem run_requests_only_new
    (web : pystr → result response) (clock : nat → pystr)
    (urls ids : list pystr) (w : world) :
  CheckpointManager.load_checkpoint CHECKPOINT_FILE w
  = (Ok (JList (map JStr ids)), w) →
  ∃ reqs,
    requests (scrape_all_reviews web clock urls w).2 = requests w ++ reqs
    ∧ Forall (λ x, ∃ u p, u ∈ urls ∧ (u ∉ ids) ∧ 1 ≤ p ≤ MAX_PAGES
                          ∧ x = page_url u p) reqs.
Proof.
  intros Hload.
  destruct (run_summary web clock urls ids w Hload)
    as (all & reqs & w' & -> & _ & Hreq & Hreqs & _).
  exists reqs. split; [done|].
  eapply Forall_impl; [exact Hreqs|].
  intros x (u & p & Hu & Hp & ->).
  apply new_identifiers_spec in Hu as [? ?]. by exists u, p.
Qed.

Lemma run_requests_only_new_witness :
  ∃ reqs,
    requests (scrape_all_reviews sample_web sample_clock
                [sample_url; str "b"] resumed_world).2
    = requests resumed_world ++ reqs
    ∧ Forall (λ x, ∃ u p, u ∈ [sample_url; str "b"] ∧ (u ∉ [sample_url])
                          ∧ 1 ≤ p ≤ MAX_PAGES ∧ x = page_url u p) reqs.
Proof.
  apply (run_requests_only_new sample_web sample_clock
           [sample_url; str "b"] [sample_url] resumed_world).
  by vm_compute.
Defined.

(** X18. The reviews a run returns are records of identifiers of its input
    that the checkpoint did not hold, each with a page number within the
    limit and a text of more than [MIN_REVIEW_LENGTH] characters; the
    [total_reviews] of the checkpoint it leaves is their number, so reviews
    of earlier runs are not counted. *)
Theorem run_returns_reviews_of_new
    (web : pystr → result response) (clock : nat → pystr)
    (urls ids : list pystr) (w : world) :
  CheckpointManager.load_checkpoint CHECKPOINT_FILE w
  = (Ok (JList (map JStr ids)), w) →
  ∃ all kv,
    (scrape_all_reviews web clock urls w).1 = Ok all
    ∧ Forall (λ r, restaurant_url r ∈ urls ∧ (restaurant_url r ∉ ids)
                   ∧ wellformed r) all
    ∧ files (scrape_all_reviews web clock urls w).2 !! CHECKPOINT_FILE
      = Some (JsonDoc (JObj kv))
    ∧ obj_get kv (str "total_reviews") JNull = JInt (Z.of_nat (length all)).
Proof.
  intros Hload.
  destruct (run_summary web clock urls ids w Hload)
    as (all & reqs & w' & -> & _ & _ & _ & Hall & kv & Hfile & Htotal).
  exists all, kv. split_and!; [done| |done|done].
  eapply Forall_impl; [exact Hall|].
  intros r [Hu ?]. apply new_identifiers_spec in Hu as [? ?]. by split_and!.
Qed.

Lemma run_returns_reviews_of_new_witness :
  ∃ all kv,
    (scrape_all_reviews sample_web sample_clock [sample_url] empty_world).1
    = Ok all
    ∧ Forall (λ r, restaurant_url r ∈ [sample_url] ∧ (restaurant_url r ∉ [])
                   ∧ wellformed r) all
    ∧ files (scrape_all_reviews sample_web sample_clock [sample_url]
               empty_world).2 !! CHECKPOINT_FILE
      = Some (JsonDoc (JObj kv))
    ∧ obj_get kv (str "total_reviews") JNull = JInt (Z.of_nat (length all)).
Proof.
  apply (run_returns_reviews_of_new sample_web sample_clock [sample_url] []
           empty_world).
  by vm_compute.
Defined.

(** X19. Running again over the same input, whatever the site then answers,
    makes no request and returns no review; the processed list in the
    checkpoint stays as the first run left it, and [total_reviews] in it
    drops to 0. *)
Theorem rerun_makes_no_request
    (web web' : pystr → result response) (clock clock' : nat → pystr)
    (urls ids : list pystr) (w : world) :
  CheckpointManager.load_checkpoint CHECKPOINT_FILE w
  = (Ok (JList (map JStr ids)), w) →
  ∃ w2 kv,
    scrape_all_reviews web' clock' urls (scrape_all_reviews web clock urls w).2
    = (Ok [], w2)
    ∧ requests w2 = requests (scrape_all_reviews web clock urls w).2
    ∧ (CheckpointManager.load_checkpoint CHECKPOINT_FILE w2).1
      = (CheckpointManager.load_checkpoint CHECKPOINT_FILE
           (scrape_all_reviews web clock urls w).2).1
    ∧ files w2 !! CHECKPOINT_FILE = Some (JsonDoc (JObj kv))
    ∧ obj_get kv (str "total_reviews") JNull = JInt 0.
Proof.
  intros Hload.
  destruct (run_summary web clock urls ids w Hload)
    as (all & reqs & w1 & -> & Hload1 & _).
  cbn [snd].
  destruct (run_summary web' clock' urls _ w1 Hload1)
    as (all2 & reqs2 & w2 & -> & Hload2 & Hreq & Hreqs & Hall & kv & Hfile
        & Htotal).
  assert (Hnone : new_identifiers (ids ++ new_identifiers ids urls) urls = []).
  { apply new_identifiers_none. intros u Hu. apply elem_of_app.
    destruct (decide (u ∈ ids)); [by left|].
    right. by apply new_identifiers_spec. }
  rewrite Hnone in *.
  assert (all2 = []) as ->.
  { destruct all2 as [|r ?]; [done|].
    apply Forall_cons in Hall as [[Hr%elem_of_nil _] _]. done. }
  assert (reqs2 = []) as ->.
  { destruct reqs2 as [|x ?]; [done|].
    apply Forall_cons in Hreqs as [(u & p & Hu%elem_of_nil & _) _]. done. }
  exists w2, kv. rewrite app_nil_r in *. rewrite Hload1, Hload2.
  by split_and!.
Qed.

Lemma rerun_makes_no_request_witness :
  ∃ w2 kv,
    scrape_all_reviews (λ _, Raise Timeout) sample_clock [sample_url]
      (scrape_all_reviews sample_web sample_clock [sample_url] empty_world).2
    = (Ok [], w2)
    ∧ requests w2
      = requests (scrape_all_reviews sample_web sample_clock [sample_url]
                    empty_world).2
    ∧ (CheckpointManager.load_checkpoint CHECKPOINT_FILE w2).1
      = (CheckpointManager.load_checkpoint CHECKPOINT_FILE
           (scrape_all_reviews sample_web sample_clock [sample_url]
              empty_world).2).1
    ∧ files w2 !! CHECKPOINT_FILE = Some (JsonDoc (JObj kv))
    ∧ obj_get kv (str "total_reviews") JNull = JInt 0.
Proof.
  apply (rerun_makes_no_request sample_web (λ _, Raise Timeout) sample_clock sample_clock
           [sample_url] [] empty_world).
  by vm_compute.
Defined.

(** X20. The turn of the loop for an identifier that is not in the processed
    list appends it, and writes files only when its position closes a chunk
    ([(i + 1) % CHUNK_SIZE == 0]): then the checkpoint holds the list with
    the identifier, and the intermediate file holds all reviews collected so
    far when there are any; at any other position no file changes. *)
Theorem turn_saves_at_chunk_end
    (web : pystr → result response) (clock : nat → pystr)
    (i : nat) (u : pystr) (all : list review_dict) (ids : list pystr)
    (w : world) :
  u ∉ ids →
  ∃ recs w',
    process_url web clock i u (all, JList (map JStr ids)) w
    = (Ok (all ++ recs, JList (map JStr (ids ++ [u]))), w')
    ∧ if (i + 1) mod CHUNK_SIZE =? 0 then
        CheckpointManager.load_checkpoint CHECKPOINT_FILE w'
        = (Ok (JList (map JStr (ids ++ [u]))), w')
        ∧ files w' !! temp_file
          = if bool_decide (all ++ recs = []) then files w !! temp_file
            else Some (CsvRows (all ++ recs))
      else files w' = files w.
Proof.
  intros Hnew.
  assert (Hne : temp_file ≠ CHECKPOINT_FILE) by (vm_compute; discriminate).
  destruct (crawl_summary web clock u w)
    as (recs & w1 & n & Heq & _ & _ & Hf & _).
  exists recs. eexists. split.
  - rewrite map_app. cbn [map].
    apply process_url_new_world; [exact Heq|].
    by rewrite existsb_str_eq_map, bool_decide_eq_false_2.
  - destruct (_ =? _); [|done].
    destruct (save_checkpoint_list clock CHECKPOINT_FILE
                (map JStr ids ++ [JStr u]) (all ++ recs) w1) as (lp & ->).
    cbn [snd]. rewrite map_app. cbn [map].
    case_bool_decide as Hnil; cbn [negb]; split.
    + erewrite load_checkpoint_present.
      2:{ cbn [files set_files]. apply lookup_insert_eq. }
      cbn [obj_get fst snd]. rewrite bool_decide_eq_true_2 by done.
      reflexivity.
    + cbn [files set_files]. by rewrite lookup_insert_ne, Hf.
    + erewrite load_checkpoint_present.
      2:{ cbn [files set_files].
          rewrite lookup_insert_ne by done. apply lookup_insert_eq. }
      cbn [obj_get fst snd]. rewrite bool_decide_eq_true_2 by done.
      reflexivity.
    + cbn [files set_files]. apply lookup_insert_eq.
Qed.

Lemma turn_saves_at_chunk_end_witness :
  ∃ recs w',
    process_url sample_web sample_clock 9 sample_url
      ([], JList (map JStr [str "a"])) empty_world
    = (Ok ([] ++ recs, JList (map JStr ([str "a"] ++ [sample_url]))), w')
    ∧ if (9 + 1) mod CHUNK_SIZE =? 0 then
        CheckpointManager.load_checkpoint CHECKPOINT_FILE w'
        = (Ok (JList (map JStr ([str "a"] ++ [sample_url]))), w')
        ∧ files w' !! temp_file
          = if bool_decide ([] ++ recs = []) then files empty_world !! temp_file
            else Some (CsvRows ([] ++ recs))
      else files w' = files empty_world.
Proof.
  apply (turn_saves_at_chunk_end sample_web sample_clock 9 sample_url []
           [str "a"] empty_world).
  apply (bool_decide_unpack _). vm_compute. exact I.
Defined.

(** X21. On the reviews a run returns, the validation that [run] applies with
    [MIN_REVIEW_LENGTH] never rejects for length: it keeps exactly the
    reviews whose text has a letter. *)
Theorem validate_after_run_checks_letters
    (web : pystr → result response) (clock : nat → pystr)
    (urls ids : list pystr) (w : world) (all : list review_dict)
    (h : store) (refs : list ref) :
  CheckpointManager.load_checkpoint CHECKPOINT_FILE w
  = (Ok (JList (map JStr ids)), w) →
  (scrape_all_reviews web clock urls w).1 = Ok all →
  Forall (λ r, h r ∈ all) refs →
  validate_reviews h refs (Z.of_nat MIN_REVIEW_LENGTH)
  = filter (λ r, existsb isalpha (review_text_of (h r)) = true) refs.
Proof.
  intros Hload Hrun Hrefs.
  destruct (run_summary web clock urls ids w Hload)
    as (all' & reqs & w' & Heq & _ & _ & _ & Hall & _).
  rewrite Heq in Hrun. injection Hrun as ->.
  rewrite Forall_forall in Hall.
  induction Hrefs as [|r refs Hr _ IH]; [done|].
  cbn [validate_reviews]. rewrite filter_cons, IH.
  destruct (Hall _ Hr) as (_ & _ & t & _ & Hlen & Ht).
  destruct (existsb isalpha (review_text_of (h r))) eqn:Halpha.
  - rewrite passes_validation_letter; [by rewrite decide_True|rewrite Ht; lia|done].
  - rewrite decide_False by done.
    destruct (passes_validation _ (h r)) eqn:Hpass; [|done].
    apply passes_validation_spec in Hpass. 
    destruct Hpass as (_ & _ & Hal). congruence.
Qed.

Lemma validate_after_run_checks_letters_witness :
  validate_reviews (λ _, crawled_review) [0; 1] (Z.of_nat MIN_REVIEW_LENGTH)
  = filter (λ r, existsb isalpha (review_text_of crawled_review) = true) [0; 1].
Proof.
  apply (validate_after_run_checks_letters sample_web sample_clock
           [sample_url] [] empty_world [crawled_review] (λ _, crawled_review)).
  - by vm_compute.
  - by vm_compute.
  - repeat constructor.
Defined.

(** ** Errors in a turn of the orchestrator *)

Section TurnFacts.

Variable web : pystr → result response.
Variable clock : nat → pystr.






End TurnFacts.



